(** * Pre-trained word vectors: loading, lookup and nearest neighbours

    A shallow embedding of the GloVe cells of
    [TensorFlow_Examples/labs/03_LSTM_NLP/NLP_word_vectors_classification.ipynb]:
    the loop that fills [embeddings_index] and [embeddings_vectors], the
    stacked matrices [glove_embeddings] and [glove_embeddings_normed], the
    lookups [get_emb] and [get_normed_emb], and [most_similar].

    Numbers are IEEE 754 binary32 values ([dtype='float32']), taken from the
    Standard Library's [SpecFloat] at precision 24 and maximal exponent 128.
    Python exceptions are values of [exn] carried by the [result] monad.
    The file is the list of its lines, each the bytes read in mode ['rb'];
    [topn] is any Python integer.  The numpy routines the cells call are a
    parameter ([NumPy]); [numpy_reference] is the instance the examples run
    on. *)

From Stdlib Require Import ZArith Lia List String Ascii.
From Stdlib Require Import Floats.SpecFloat.
From stdpp Require Import gmap strings list sorting pretty.

Local Open Scope Z_scope.

(** ** binary32 arithmetic *)

Module F32.

Definition prec : Z := 24.
Definition emax : Z := 128.

Definition zero : spec_float := S754_zero false.
Definition one : spec_float := S754_finite false 8388608 (-23).
Definition nan : spec_float := S754_nan.

Definition add : spec_float -> spec_float -> spec_float := SFadd prec emax.
Definition mul : spec_float -> spec_float -> spec_float := SFmul prec emax.
Definition div : spec_float -> spec_float -> spec_float := SFdiv prec emax.
Definition sqrt : spec_float -> spec_float := SFsqrt prec emax.

(** Rounding of an integer, as for the count in a mean. *)
Definition of_Z (n : Z) : spec_float := binary_normalize prec emax n 0 false.

(** [x != x] *)
Definition isnan (x : spec_float) : bool := negb (SFeqb x x).

(** The comparison numpy sorts floats with (npysort's [LT] for floating
    types): [a < b || (b != b && a == a)].  It ranks every NaN above every
    number. *)
Definition lt (a b : spec_float) : bool :=
  SFltb a b || (isnan b && negb (isnan a)).

Definition le (a b : spec_float) : bool := negb (lt b a).

(** A position on a line of integers triples, ordered lexicographically,
    that [lt] agrees with. *)
Definition rank (x : spec_float) : Z * Z * Z :=
  match x with
  | S754_infinity true => (-2, 0, 0)
  | S754_finite true m e => (-1, - e, - Z.pos m)
  | S754_zero _ => (0, 0, 0)
  | S754_finite false m e => (1, e, Z.pos m)
  | S754_infinity false => (2, 0, 0)
  | S754_nan => (3, 0, 0)
  end.

Definition lex (p q : Z * Z * Z) : Prop :=
  let '(a1, b1, c1) := p in
  let '(a2, b2, c2) := q in
  a1 < a2 \/ (a1 = a2 /\ (b1 < b2 \/ (b1 = b2 /\ c1 < c2))).

(** A normal number [m * 2^e]: a mantissa of [prec] digits, and an exponent
    from [lo] to [hi]. *)
Definition normal (lo hi : Z) (x : spec_float) : bool :=
  match x with
  | S754_finite _ m e => (Z.pos (digits2_pos m) =? prec) && (lo <=? e) && (e <=? hi)
  | _ => false
  end.

(** The number [x * 2^k] when it is normal. *)
Definition scale (k : Z) (x : spec_float) : spec_float :=
  match x with
  | S754_finite s m e => S754_finite s m (e + k)
  | _ => x
  end.

(** A component of moderate size: [+0.0], or a normal number whose absolute
    value is at least 2^-40 and less than 2^12.  Its square and its double
    are far from overflow and from the subnormal range. *)
Definition moderate (x : spec_float) : bool :=
  match x with
  | S754_zero false => true
  | _ => normal (-63) (-12) x
  end.

End F32.

Abbreviation float32 := spec_float.

(** ** Exceptions and results *)

(** The Python exceptions the cells can raise, each standing for its
    subclasses as well.  [ZeroDivisionError] is what a guarded division would
    raise; it is part of the type so that its absence from every run can be
    stated. *)
Inductive exn : Type :=
| OSError            (* [open] on a file that is not there: [FileNotFoundError] *)
| IndexError         (* [values[0]] on a line without tokens; an index out of range *)
| ValueError         (* [decode] on bytes that are no UTF-8: [UnicodeDecodeError];
                        [np.asarray] on a token that is no number; [np.vstack] on
                        ragged or no rows *)
| TypeError          (* arithmetic on [None]; an array used as a dictionary key *)
| KeyError           (* [inv_index[idx]] on an id that is no key *)
| ZeroDivisionError.

Inductive result (A : Type) : Type :=
| Ok (a : A)
| Raise (e : exn).
Arguments Ok {A} a.
Arguments Raise {A} e.

#[global] Instance result_ret : MRet result := @Ok.
#[global] Instance result_bind : MBind result := fun A B k r =>
  match r with
  | Ok a => k a
  | Raise e => Raise e
  end.

Fixpoint mapM {A B : Type} (f : A -> result B) (l : list A) : result (list B) :=
  match l with
  | [] => Ok []
  | a :: l' => b ← f a; bs ← mapM f l'; Ok (b :: bs)
  end.

(** [xs[i]] for a valid position. *)
Definition getitem {A : Type} (xs : list A) (i : nat) : result A :=
  match xs !! i with
  | Some x => Ok x
  | None => Raise IndexError
  end.

(** [xs[:k]], for any Python integer [k]: a negative [k] counts from the end. *)
Definition py_slice {A : Type} (k : Z) (xs : list A) : list A :=
  if 0 <=? k then take (Z.to_nat k) xs
  else take (Z.to_nat (Z.of_nat (length xs) + k)) xs.

(** The error names of the specification, as sets of Python exceptions. *)
Definition ParseError (e : exn) : Prop := e = ValueError \/ e = IndexError.
Definition UnknownWordError (e : exn) : Prop := e = TypeError.
Definition DegenerateVectorError (e : exn) : Prop := e = ZeroDivisionError.

(** ** Text: the bytes of a line, [decode('utf-8')], [str.split()] and [float]

    A line is the [bytes] object read from the file opened in mode ['rb'],
    one [ascii] per byte.  A Python [str] is kept as its UTF-8 encoding,
    which names it uniquely, and a character as the string of its one to
    four bytes. *)

Module Text.

Definition code (c : ascii) : Z := Z.of_N (N_of_ascii c).

Definition range (lo hi : Z) (c : ascii) : bool := (lo <=? code c) && (code c <=? hi).

Definition continuation (c : ascii) : bool := range 0x80 0xBF c.

(** The well-formed sequences of two, three and four bytes: no overlong
    form, no surrogate, nothing above U+10FFFF. *)
Definition two (a b : ascii) : bool := range 0xC2 0xDF a && continuation b.

Definition three (a b c : ascii) : bool :=
  (range 0xE0 0xE0 a && range 0xA0 0xBF b
   || range 0xE1 0xEC a && continuation b
   || range 0xED 0xED a && range 0x80 0x9F b
   || range 0xEE 0xEF a && continuation b) && continuation c.

Definition four (a b c d : ascii) : bool :=
  (range 0xF0 0xF0 a && range 0x90 0xBF b
   || range 0xF1 0xF3 a && continuation b
   || range 0xF4 0xF4 a && range 0x80 0x8F b) && continuation c && continuation d.

Definition char1 (a : ascii) : string := String a EmptyString.
Definition char2 (a b : ascii) : string := String a (char1 b).
Definition char3 (a b c : ascii) : string := String a (char2 b c).
Definition char4 (a b c d : ascii) : string := String a (char3 b c d).

(** The characters of a byte string, from left to right.  A byte that
    begins no well-formed sequence is left on its own. *)
Fixpoint chars (s : string) : list string :=
  match s with
  | EmptyString => []
  | String a s1 =>
      match s1 with
      | String b s2 =>
          if two a b then char2 a b :: chars s2
          else
            match s2 with
            | String c s3 =>
                if three a b c then char3 a b c :: chars s3
                else
                  match s3 with
                  | String d s4 =>
                      if four a b c d then char4 a b c d :: chars s4
                      else char1 a :: chars s1
                  | EmptyString => char1 a :: chars s1
                  end
            | EmptyString => char1 a :: chars s1
            end
      | EmptyString => char1 a :: chars s1
      end
  end.

(** Whether [line.decode('utf-8')] returns: every byte above 0x7F is part
    of a well-formed sequence.  Otherwise it raises [UnicodeDecodeError]. *)
Definition decodes (s : string) : bool :=
  forallb (fun ch => match ch with
                     | String a EmptyString => code a <? 0x80
                     | _ => true
                     end) (chars s).

(** White space as [str.split()] sees it: U+0009..U+000D, U+001C..U+0020,
    U+0085, U+00A0, U+1680, U+2000..U+200A, U+2028, U+2029, U+202F, U+205F
    and U+3000. *)
Definition is_space (ch : string) : bool :=
  match ch with
  | String a EmptyString => range 0x09 0x0D a || range 0x1C 0x20 a
  | String a (String b EmptyString) =>
      (code a =? 0xC2) && ((code b =? 0x85) || (code b =? 0xA0))
  | String a (String b (String c EmptyString)) =>
      (code a =? 0xE1) && (code b =? 0x9A) && (code c =? 0x80)
      || (code a =? 0xE2) && (code b =? 0x80)
         && (range 0x80 0x8A c || range 0xA8 0xA9 c || (code c =? 0xAF))
      || (code a =? 0xE2) && (code b =? 0x81) && (code c =? 0x9F)
      || (code a =? 0xE3) && (code b =? 0x80) && (code c =? 0x80)
  | _ => false
  end.

Fixpoint split_from (tok : string) (chs : list string) : list string :=
  match chs with
  | [] => if decide (tok = EmptyString) then [] else [tok]
  | ch :: chs' =>
      if is_space ch then
        (if decide (tok = EmptyString) then [] else [tok]) ++ split_from EmptyString chs'
      else split_from (tok +:+ ch) chs'
  end.

(** [text.split()], on the encoding of [text]. *)
Definition split (s : string) : list string := split_from EmptyString (chars s).

(** The lines [for line in f] yields for a file of the given bytes: each
    ends with its line feed, but for a last line that has none. *)
Fixpoint lines_from (line : string) (s : string) : list string :=
  match s with
  | EmptyString => if decide (line = EmptyString) then [] else [line]
  | String c s' =>
      if decide (code c = 0x0A) then (line +:+ char1 c) :: lines_from EmptyString s'
      else lines_from (line +:+ char1 c) s'
  end.

Definition lines (s : string) : list string := lines_from EmptyString s.

Definition digit (c : ascii) : option Z :=
  if range 0x30 0x39 c then Some (code c - 0x30) else None.

(** Python's rule for underscores in a number: each stands between two
    digits, and is dropped. *)
Fixpoint underscores (prev : option ascii) (s : string) : option string :=
  match s with
  | EmptyString => Some EmptyString
  | String c s' =>
      if decide (c = "_"%char) then
        match prev ≫= digit, s' with
        | Some _, String next _ =>
            match digit next with
            | Some _ => underscores (Some c) s'
            | None => None
            end
        | _, _ => None
        end
      else String c <$> underscores (Some c) s'
  end.

(** Reads a run of digits: the number read so far, how many digits were
    read, and what is left. *)
Fixpoint digits (acc : Z) (count : Z) (s : string) : Z * Z * string :=
  match s with
  | EmptyString => (acc, count, s)
  | String c s' =>
      match digit c with
      | Some d => digits (10 * acc + d) (count + 1) s'
      | None => (acc, count, s)
      end
  end.

Definition sign (s : string) : bool * string :=
  match s with
  | String "-" s' => (true, s')
  | String "+" s' => (false, s')
  | _ => (false, s)
  end.

Definition lower (c : ascii) : ascii :=
  if range 0x41 0x5A c then ascii_of_N (N_of_ascii c + 32) else c.

Fixpoint lowercase (s : string) : string :=
  match s with
  | EmptyString => EmptyString
  | String c s' => String (lower c) (lowercase s')
  end.

(** [nan], [inf] and [infinity], in any case and with a sign. *)
Definition special (s : string) : option float32 :=
  let '(neg, s1) := sign s in
  let name := lowercase s1 in
  if decide (name = "nan"%string) then Some S754_nan
  else if decide (name = "inf"%string \/ name = "infinity"%string)
       then Some (S754_infinity neg)
       else None.

Definition exponent (s : string) : option Z :=
  match s with
  | EmptyString => Some 0
  | String c s' =>
      if decide (c = "e"%char \/ c = "E"%char) then
        let '(neg, s1) := sign s' in
        let '(e, n, s2) := digits 0 0 s1 in
        if decide (0 < n /\ s2 = EmptyString) then Some (if neg then - e else e)
        else None
      else None
  end.

(** A decimal literal [[+-]digits[.digits][e[+-]digits]] read as
    [(negative, mantissa, exponent of ten)]. *)
Definition decimal (s : string) : option (bool * Z * Z) :=
  let '(neg, s1) := sign s in
  let '(ip, ni, s2) := digits 0 0 s1 in
  let '(m, nf, s3) :=
    match s2 with
    | String "." s' => digits ip 0 s'
    | _ => (ip, 0, s2)
    end in
  if decide (0 < ni + nf) then
    match exponent s3 with
    | Some e => Some (neg, m, e - nf)
    | None => None
    end
  else None.

(** The binary64 value nearest to [m * 10^e], as Python's [float] gives. *)
Definition to_binary64 (neg : bool) (m e : Z) : spec_float :=
  match m with
  | Z.pos p =>
      if 0 <=? e then binary_round 53 1024 neg (p * Z.to_pos (10 ^ e)) 0
      else SFdiv 53 1024 (S754_finite neg p 0)
                         (S754_finite false (Z.to_pos (10 ^ (- e))) 0)
  | _ => S754_zero neg
  end.

(** The C cast from [double] to [float]. *)
Definition to_binary32 (x : spec_float) : spec_float :=
  match x with
  | S754_finite s m e => binary_round F32.prec F32.emax s m e
  | _ => x
  end.

(** One string token converted for a [float32] array: through Python's
    [float], then narrowed.  It reads what [float] reads of ASCII text; the
    decimal digits of other scripts, which [float] reads as well, are no
    numbers here. *)
Definition float32_of_string (s : string) : option float32 :=
  s' ← underscores None s;
  match special s' with
  | Some x => Some x
  | None =>
      match decimal s' with
      | Some (neg, m, e) => Some (to_binary32 (to_binary64 neg m e))
      | None => None
      end
  end.

End Text.

Local Close Scope Z_scope.

(** ** The numpy routines the cells call

    The routines are a parameter of the cells.  The facts below use of
    [np.argsort] only that it [sorts], and of [np.linalg.norm] at most that
    it [doubles]; how equal scores are ordered, and in which order [np.dot]
    and [np.linalg.norm] add up their terms, is left to the instance.  One
    [norm] serves the norm of the query vector and the norm of each row, and
    one [dot] the matrix product and the product of two vectors, though numpy
    computes each by a routine of its own and may round them apart: no fact
    below compares a number from the one use with a number from the other. *)

(** The score at position [i]. *)
Definition key (xs : list float32) (i : nat) : float32 := default F32.nan (xs !! i).

Class NumPy : Type := {
  (** one token of [np.asarray(values[1:], dtype='float32')]; [None] stands
      for its [ValueError] *)
  asfloat32 : string -> option float32;
  (** [np.linalg.norm] of a vector, and of each row under [axis=-1] *)
  norm : list float32 -> float32;
  (** one entry of [np.dot(matrix, vector)], and [np.dot] of two vectors *)
  dot : list float32 -> list float32 -> float32;
  (** [np.argsort], with numpy's default sort *)
  argsort : list float32 -> list nat
}.

(** What numpy documents of [np.argsort]: the positions of its argument, in
    an order along which the scores never decrease. *)
Definition sorts (argsort : list float32 -> list nat) : Prop :=
  forall xs,
    argsort xs ≡ₚ seq 0 (length xs) /\
    Sorted (fun i j => F32.le (key xs i) (key xs j) = true) (argsort xs).

(** What IEEE arithmetic gives for [np.linalg.norm] on a vector of at most a
    hundred components of moderate size, in whatever order the squares are
    added: no step overflows or leaves the normal range, so the norm is zero
    or normal, and doubling the vector doubles every step. *)
Definition doubles (norm : list float32 -> float32) : Prop :=
  forall v, Forall (fun x => F32.moderate x = true) v -> length v <= 100 ->
    (norm v = F32.zero \/ F32.normal (-149) 103 (norm v) = true) /\
    norm ((fun x => F32.add x x) <$> v) = F32.add (norm v) (norm v).

(** One instance, for the examples: terms added from left to right, and an
    insertion sort (each position moves left past the strictly greater
    scores).  numpy may add in another order, and its default sort may leave
    equal scores in another order; the theorems are about every instance. *)
Module Reference.

Definition norm (v : list float32) : float32 :=
  F32.sqrt (foldl (fun acc x => F32.add acc (F32.mul x x)) F32.zero v).

Definition dot (u v : list float32) : float32 :=
  foldl F32.add F32.zero (zip_with F32.mul u v).

Fixpoint insert (xs : list float32) (i : nat) (l : list nat) : list nat :=
  match l with
  | [] => [i]
  | j :: l' =>
      if F32.lt (key xs j) (key xs i) then j :: insert xs i l' else i :: l
  end.

Definition argsort (xs : list float32) : list nat :=
  foldr (insert xs) [] (seq 0 (length xs)).

(** The sum of the squares of [k] components of moderate size: zero, or
    positive and normal with an exponent of [k + 1] at most. *)
Definition partial (k : Z) (acc : float32) : Prop :=
  acc = F32.zero \/
  exists m e, acc = S754_finite false m e /\ Z.pos (digits2_pos m) = F32.prec /\
              (-103 <= e <= k + 1)%Z.

End Reference.

(** numpy with sums taken from left to right and an insertion sort. *)
Definition numpy_reference : NumPy := {|
  asfloat32 := Text.float32_of_string;
  norm := Reference.norm;
  dot := Reference.dot;
  argsort := Reference.argsort
|}.

(** ** The notebook cells *)

Record EmbeddingIndex : Type := {
  embeddings_index : gmap string nat;
  inv_index : gmap nat string;
  glove_embeddings : list (list float32);
  glove_embeddings_normed : list (list float32)
}.

(** What [query_emb] can hold: [None], the integer [0] it starts from, or an
    array. *)
Inductive pyobj : Type :=
| PyNone
| PyZero
| PyArr (v : list float32).

(** [words] is one word or a Python list of words. *)
Inductive query : Type :=
| Word (w : string)
| Words (ws : list string).

Section Notebook.
Context {np : NumPy}.

Definition asarray (values : list string) : result (list float32) :=
  mapM (fun tok => match asfloat32 tok with
                   | Some x => Ok x
                   | None => Raise ValueError
                   end) values.

(** The body of [for line in f]: the state is [embeddings_index],
    [embeddings_vectors] and [word_idx]. *)
Definition loop_body (st : gmap string nat * list (list float32) * nat)
    (line : string) : result (gmap string nat * list (list float32) * nat) :=
  let '(index, vectors, word_idx) := st in
  if Text.decodes line then
    match Text.split line with
    | [] => Raise IndexError
    | word :: values =>
        vector ← asarray values;
        Ok (<[word := word_idx]> index, vectors ++ [vector], S word_idx)
    end
  else Raise ValueError.

Fixpoint load_loop (lines : list string)
    (st : gmap string nat * list (list float32) * nat)
    : result (gmap string nat * list (list float32) * nat) :=
  match lines with
  | [] => Ok st
  | line :: lines' => st' ← loop_body st line; load_loop lines' st'
  end.

(** [{v: k for k, v in embeddings_index.items()}]; the ids of distinct
    words are distinct, so the order of the items does not matter. *)
Definition invert (index : gmap string nat) : gmap nat string :=
  list_to_map (prod_swap <$> map_to_list index).

(** [np.vstack]: at least one row, all of one length. *)
Definition vstack (vectors : list (list float32)) : result (list (list float32)) :=
  match vectors with
  | [] => Raise ValueError
  | v :: vs =>
      if forallb (fun u => length u =? length v) vs then Ok vectors
      else Raise ValueError
  end.

(** [v / np.linalg.norm(v)] *)
Definition normalize (v : list float32) : list float32 :=
  let n := norm v in (fun x => F32.div x n) <$> v.

(** The two loading cells, on the lines [for line in f] yields. *)
Definition load (file : list string) : result EmbeddingIndex :=
  st ← load_loop file (∅, [], 0);
  let inv := invert st.1.1 in
  emb ← vstack st.1.2;
  Ok {| embeddings_index := st.1.1;
        inv_index := inv;
        glove_embeddings := emb;
        glove_embeddings_normed := normalize <$> emb |}.

(** [open(name, 'rb')] in a directory given by the bytes of its files. *)
Definition open (files : gmap string string) (name : string) : result string :=
  match files !! name with
  | Some bytes => Ok bytes
  | None => Raise OSError
  end.

Definition glove_file : string := "glove100K.100d.txt".

(** The two loading cells from their first statement on. *)
Definition load_file (files : gmap string string) : result EmbeddingIndex :=
  f ← open files glove_file;
  load (Text.lines f).

Definition get_emb (E : EmbeddingIndex) (word : string)
    : result (option (list float32)) :=
  match embeddings_index E !! word with
  | None => Ok None
  | Some idx => v ← getitem (glove_embeddings E) idx; Ok (Some v)
  end.

Definition get_normed_emb (E : EmbeddingIndex) (word : string)
    : result (option (list float32)) :=
  match embeddings_index E !! word with
  | None => Ok None
  | Some idx => v ← getitem (glove_embeddings_normed E) idx; Ok (Some v)
  end.

(** [query_emb += e].  From the integer [0] the sum is a new array; two
    rows of one stacked matrix always have one length. *)
Definition iadd (query_emb : pyobj) (e : option (list float32)) : result pyobj :=
  match e, query_emb with
  | None, _ => Raise TypeError
  | Some v, PyZero => Ok (PyArr (F32.add F32.zero <$> v))
  | Some v, PyArr u =>
      if decide (length u = length v) then Ok (PyArr (zip_with F32.add u v))
      else Raise ValueError
  | Some v, PyNone => Raise TypeError
  end.

Fixpoint sum_loop (E : EmbeddingIndex) (words : list string) (query_emb : pyobj)
    : result pyobj :=
  match words with
  | [] => Ok query_emb
  | word :: words' =>
      e ← get_emb E word;
      query_emb' ← iadd query_emb e;
      sum_loop E words' query_emb'
  end.

(** [query_emb] as it stands before the division by its norm. *)
Definition query_emb (E : EmbeddingIndex) (words : query) : result pyobj :=
  match words with
  | Words ws => sum_loop E ws PyZero
  | Word w =>
      e ← get_emb E w;
      Ok (match e with None => PyNone | Some v => PyArr v end)
  end.

(** [np.dot(glove_embeddings_normed, query)] *)
Definition cosines (E : EmbeddingIndex) (query : list float32) : list float32 :=
  (fun row => dot row query) <$> glove_embeddings_normed E.

(** [inv_index[idx]] *)
Definition word_of (E : EmbeddingIndex) (idx : nat) : result string :=
  match inv_index E !! idx with
  | Some w => Ok w
  | None => Raise KeyError
  end.

(** [most_similar(words, topn)].  With [None] in [query_emb] the norm
    raises.  With the integer [0] left by an empty list, the quotient is the
    scalar nan, [cosines] and its [argsort] are matrices, and every [idx]
    is a row, which no dictionary accepts as a key. *)
Definition most_similar (E : EmbeddingIndex) (words : query) (topn : Z)
    : result (list (string * float32)) :=
  q ← query_emb E words;
  match q with
  | PyNone => Raise TypeError
  | PyZero =>
      match py_slice topn (reverse (glove_embeddings_normed E)) with
      | [] => Ok []
      | _ :: _ => Raise TypeError
      end
  | PyArr v =>
      let cos := cosines E (normalize v) in
      let idxs := py_slice topn (reverse (argsort cos)) in
      mapM (fun idx => w ← word_of E idx; c ← getitem cos idx; Ok (w, c)) idxs
  end.

End Notebook.

(** ** Vocabulary of a file and the words of the specification *)

(** The first token of each line. *)
Definition file_words (file : list string) : list string :=
  (fun line => hd EmptyString (Text.split line)) <$> file.

Definition query_words (q : query) : list string :=
  match q with
  | Word w => [w]
  | Words ws => ws
  end.

(** A query of known words: one word of the vocabulary, or a list of one or
    more of them. *)
Definition in_vocabulary (E : EmbeddingIndex) (q : query) : Prop :=
  query_words q <> [] /\ forall w, w ∈ query_words q -> is_Some (embeddings_index E !! w).

(** The pair returned for position [i]: the word of line [i] and its score. *)
Definition entry (file : list string) (cos : list float32) (i : nat) : string * float32 :=
  (default EmptyString (file_words file !! i), key cos i).

(** The elementwise sum of vectors of length [d], added in order onto
    zeros. *)
Definition elementwise_sum (d : nat) (vs : list (list float32)) : list float32 :=
  foldl (zip_with F32.add) (replicate d F32.zero) vs.

(** The average in the specification's words: "sum then divide by count". *)
Definition spec_average (d : nat) (vs : list (list float32)) : list float32 :=
  (fun x => F32.div x (F32.of_Z (Z.of_nat (length vs)))) <$> elementwise_sum d vs.

(** ** The state after a load *)

Section LoadedState.
Context {np : NumPy}.

(** A line the loop accepts: text with a word, then tokens that are all
    numbers. *)
Definition parses (line : string) (word : string) (row : list float32) : Prop :=
  Text.decodes line = true /\
  exists values, Text.split line = word :: values /\ asarray values = Ok row.

(** The state of the notebook after the loading cells ran on [file]. *)
Record Loaded (file : list string) (E : EmbeddingIndex) : Prop := {
  loaded_rows :
    Forall2 (fun line row => exists word, parses line word row) file (glove_embeddings E);
  loaded_nonempty : file <> [];
  loaded_dim : exists d, Forall (fun row => length row = d) (glove_embeddings E);
  loaded_normed : glove_embeddings_normed E = normalize <$> glove_embeddings E;
  loaded_index : forall w i, embeddings_index E !! w = Some i <->
    file_words file !! i = Some w /\
    forall k, i < k -> file_words file !! k <> Some w;
  loaded_inv : forall i w, inv_index E !! i = Some w <-> embeddings_index E !! w = Some i
}.

End LoadedState.

(** What C1 asks of a ranking [r]: of two entries with one score, the one
    with the smaller id comes first. *)
Definition ties_ascending (index : gmap string nat) (r : list (string * float32)) : Prop :=
  forall k1 k2 w1 w2 s i1 i2,
    k1 < k2 -> r !! k1 = Some (w1, s) -> r !! k2 = Some (w2, s) ->
    index !! w1 = Some i1 -> index !! w2 = Some i2 -> i1 < i2.

(** ** Example files *)

Definition load_reference (file : list string) : EmbeddingIndex :=
  match load (np := numpy_reference) file with
  | Ok E => E
  | Raise _ => {| embeddings_index := ∅; inv_index := ∅;
                  glove_embeddings := []; glove_embeddings_normed := [] |}
  end.

(** The three lines of the specification's example. *)
Definition pets : list string := ["cat 1 0"; "dog 0.9 0.1"; "car 0 1"]%string.
Definition pets_index : EmbeddingIndex := load_reference pets.

(** Two words with one vector. *)
Definition twins : list string := ["a 1 0"; "b 1 0"]%string.
Definition twins_index : EmbeddingIndex := load_reference twins.

(** One word whose vector is all zeros. *)
Definition origin : list string := ["z 0 0"]%string.
Definition origin_index : EmbeddingIndex := load_reference origin.

(** A file that names "a" on its first and on its third line. *)
Definition repeated : list string := ["a 1"; "b 2"; "a 3"]%string.
Definition repeated_index : EmbeddingIndex := load_reference repeated.


(** One word whose component is 2e38, within binary32 but with 4e38 beyond. *)
Definition huge : list string := ["w 2e38"]%string.
Definition huge_index : EmbeddingIndex := load_reference huge.

(** One word whose component is 1e30: its square is beyond binary32. *)
Definition big : list string := ["big 1e30"]%string.
Definition big_index : EmbeddingIndex := load_reference big.

(** A directory whose GloVe file has a line of a no-break space (U+00A0)
    after its first line. *)
Definition LF : string := String (ascii_of_N 10) EmptyString.
Definition NBSP : string := String (ascii_of_N 194) (String (ascii_of_N 160) EmptyString).
Definition blank_line_files : gmap string string :=
  {[ glove_file := ("a 1" +:+ LF +:+ NBSP +:+ LF)%string ]}.

(** ** The other cells that read the index *)

(** The cast of a [float32] value to [float64], exact: the same number with
    its mantissa widened. *)
Definition to_float64 (x : float32) : spec_float :=
  match x with
  | S754_finite s m e => binary_round 53 1024 s m e
  | _ => x
  end.

(** [MAX_NB_WORDS = 20000] and the [EMBEDDING_DIM = 100] of the cell that
    fills [embedding_matrix]. *)
Definition MAX_NB_WORDS : nat := Z.to_nat 20000.
Definition EMBEDDING_DIM : nat := Z.to_nat 100.

Section Cells.
Context {np : NumPy}.

(** [np.dot(get_normed_emb(a), get_normed_emb(b))], the cosine of two
    words. *)
Definition similarity (E : EmbeddingIndex) (a b : string) : result float32 :=
  u ← get_normed_emb E a;
  v ← get_normed_emb E b;
  match u, v with
  | Some u, Some v =>
      if decide (length u = length v) then Ok (dot u v) else Raise ValueError
  | _, _ => Raise TypeError
  end.

(** The labels of the t-SNE plot: [inv_index[idx]] for [idx in range(n)]. *)
Definition plot_labels (E : EmbeddingIndex) (n : nat) : result (list string) :=
  mapM (word_of E) (seq 0 n).

(** The notebook plots the first thousand words. *)
Definition tsne_labels (E : EmbeddingIndex) : result (list string) :=
  plot_labels E (Z.to_nat 1000).

(** What numpy stores in a row of [dim] float64 numbers for a float32
    vector: the vector itself when it has [dim] entries, [dim] copies of its
    entry when it has one, and nothing otherwise (the shapes do not
    broadcast). *)
Definition broadcast (dim : nat) (v : list float32) : option (list spec_float) :=
  if decide (length v = dim) then Some (to_float64 <$> v)
  else match v with
       | [x] => Some (replicate dim (to_float64 x))
       | _ => None
       end.

(** [embedding_matrix[i] = embedding_vector]: the row must exist, then the
    vector must fit it. *)
Definition assign_row (dim : nat) (matrix : list (list spec_float)) (i : nat)
    (v : list float32) : result (list (list spec_float)) :=
  if decide (i < length matrix) then
    match broadcast dim v with
    | Some row => Ok (<[i := row]> matrix)
    | None => Raise ValueError
    end
  else Raise IndexError.

(** [for word, i in word_index.items()]: the state is [embedding_matrix] and
    [nb_words_in_matrix]; [word_index] is given by its items, in the order
    the loop meets them, with the tokenizer's indices, which are natural
    numbers. *)
Fixpoint fill_loop (max_nb_words dim : nat) (E : EmbeddingIndex)
    (items : list (string * nat)) (st : list (list spec_float) * nat)
    : result (list (list spec_float) * nat) :=
  match items with
  | [] => Ok st
  | (word, i) :: items' =>
      if decide (max_nb_words <= i) then fill_loop max_nb_words dim E items' st
      else
        embedding_vector ← get_emb E word;
        match embedding_vector with
        | None => fill_loop max_nb_words dim E items' st
        | Some v =>
            matrix ← assign_row dim st.1 i v;
            fill_loop max_nb_words dim E items' (matrix, S st.2)
        end
  end.

(** The cell that prepares [embedding_matrix], for any two constants: the
    matrix of zeros has [min(max_nb_words, len(word_index))] rows. *)
Definition fill_embedding_matrix (max_nb_words dim : nat) (E : EmbeddingIndex)
    (word_index : list (string * nat)) : result (list (list spec_float) * nat) :=
  let nb_words := min max_nb_words (length word_index) in
  fill_loop max_nb_words dim E word_index
    (replicate nb_words (replicate dim (S754_zero false)), 0).

(** The cell as the notebook runs it. *)
Definition embedding_matrix (E : EmbeddingIndex) (word_index : list (string * nat))
    : result (list (list spec_float) * nat) :=
  fill_embedding_matrix MAX_NB_WORDS EMBEDDING_DIM E word_index.

(** [dict((i, w) for w, i in word_index.items())]: a later item replaces
    an earlier one with the same index. *)
Definition index_to_word (word_index : list (string * nat)) : gmap nat string :=
  foldl (fun m item => <[item.2 := item.1]> m) ∅ word_index.

(** [" ".join([index_to_word[i] for i in sequence])] *)
Definition decode (word_index : list (string * nat)) (sequence : list nat)
    : result string :=
  ws ← mapM (fun i => match index_to_word word_index !! i with
                      | Some w => Ok w
                      | None => Raise KeyError
                      end) sequence;
  Ok (String.concat " " ws).

(** A file the loading cells accept: at least one line, and every line is
    UTF-8 text with a word followed by one and the same number of tokens that
    are numbers. *)
Definition well_formed (file : list string) : Prop :=
  file <> [] /\
  exists d, forall line, line ∈ file ->
    Text.decodes line = true /\
    exists word values,
      Text.split line = word :: values /\ length values = d /\
      forall tok, tok ∈ values -> is_Some (asfloat32 tok).

End Cells.

(** A file of one word with a hundred numbers, and a [word_index] of twenty
    thousand words with the indices 1 to 20000. *)
Definition hundred : list string :=
  ["the" +:+ String.concat "" (replicate (Z.to_nat 100) " 1")]%string.
Definition hundred_index : EmbeddingIndex := load_reference hundred.
Definition vocabulary : list (string * nat) :=
  (fun i => (pretty i, i)) <$> seq 1 (Z.to_nat 20000).

(** * Facts *)

(** ** The order numpy sorts by is a total preorder *)

Module F32Facts.
Import F32.

Lemma lt_rank a b : lt a b = true <-> lex (rank a) (rank b).
Proof.
  unfold lt, isnan, SFltb, SFeqb.
  destruct a as [sa|sa| |sa ma ea], b as [sb|sb| |sb mb eb];
    try destruct sa; try destruct sb; cbn;
    try rewrite Pos.compare_cont_refl; try rewrite Z.compare_refl; cbn;
    try (split; [discriminate | lia]);
    try (split; [lia | reflexivity]).
  all: change (Pos.compare_cont Eq ma mb) with (Pos.compare ma mb).
  all: destruct (Z.compare_spec ea eb); destruct (Pos.compare_spec ma mb);
    cbn; split; intros; try discriminate; try reflexivity; try lia.
Qed.

Lemma lex_irrefl p : ~ lex p p.
Proof. destruct p as [[a b] c]. cbn. lia. Qed.

Lemma lex_trans p q r : lex p q -> lex q r -> lex p r.
Proof. destruct p as [[? ?] ?], q as [[? ?] ?], r as [[? ?] ?]. cbn. lia. Qed.

Lemma lex_cotrans p q r : lex p r -> lex p q \/ lex q r.
Proof. destruct p as [[? ?] ?], q as [[? ?] ?], r as [[? ?] ?]. cbn. lia. Qed.


Lemma lt_le a b : lt a b = true -> le a b = true.
Proof.
  intros H. unfold le. destruct (lt b a) eqn:H'; [|done].
  apply lt_rank in H, H'. destruct (lex_irrefl _ (lex_trans _ _ _ H H')).
Qed.


Lemma le_total a b : le a b = true \/ le b a = true.
Proof.
  destruct (lt b a) eqn:H.
  - right. by apply lt_le.
  - left. unfold le. by rewrite H.
Qed.

Lemma le_trans a b c : le a b = true -> le b c = true -> le a c = true.
Proof.
  unfold le. intros H1 H2. destruct (lt c a) eqn:H; [|done].
  apply lt_rank in H. destruct (lex_cotrans _ (rank b) _ H) as [H'|H'];
    apply lt_rank in H'; rewrite H' in *; done.
Qed.

Lemma lt_le_trans a b c : lt a b = true -> le b c = true -> lt a c = true.
Proof.
  intros H1 H2. apply lt_rank in H1.
  destruct (lex_cotrans _ (rank c) _ H1) as [H'|H'].
  - by apply lt_rank.
  - apply lt_rank in H'. unfold le in H2. by rewrite H' in H2.
Qed.

Lemma not_le_lt a b : le a b = false -> lt b a = true.
Proof. unfold le. by destruct (lt b a). Qed.

End F32Facts.

(** ** Doubling in binary32

    How rounding, sums, squares, square roots and quotients of normal
    numbers behave when the exponents of their arguments are raised. *)

Module F32Scaling.
Import F32.
Local Open Scope Z_scope.

Lemma digits_bounds p :
  2 ^ (Z.pos (digits2_pos p) - 1) <= Z.pos p < 2 ^ Z.pos (digits2_pos p).
Proof.
  induction p as [p IH|p IH|]; cbn [digits2_pos].
  - rewrite Pos2Z.inj_succ, (Pos2Z.inj_xI p).
    replace (Z.succ (Z.pos (digits2_pos p)) - 1) with (Z.succ (Z.pos (digits2_pos p) - 1)) by lia.
    rewrite !Z.pow_succ_r by lia. lia.
  - rewrite Pos2Z.inj_succ, (Pos2Z.inj_xO p).
    replace (Z.succ (Z.pos (digits2_pos p)) - 1) with (Z.succ (Z.pos (digits2_pos p) - 1)) by lia.
    rewrite !Z.pow_succ_r by lia. lia.
  - cbn. lia.
Qed.

Lemma Zdigits2_bounds m : 0 < m -> 2 ^ (Zdigits2 m - 1) <= m < 2 ^ Zdigits2 m.
Proof. destruct m as [|p|p]; try lia. intros _. apply digits_bounds. Qed.

Lemma Zdigits2_unique m d : 0 < d -> 2 ^ (d - 1) <= m < 2 ^ d -> Zdigits2 m = d.
Proof.
  intros Hd [Hlo Hhi].
  assert (0 < m) as Hm by (pose proof (Z.pow_pos_nonneg 2 (d - 1)); lia).
  pose proof (Zdigits2_bounds m Hm) as [Hlo' Hhi'].
  assert (0 < Zdigits2 m) as Hd' by (destruct m; cbn; lia).
  destruct (Z.lt_trichotomy (Zdigits2 m) d) as [Hlt|[Heq|Hgt]]; [|done|].
  - pose proof (Z.pow_le_mono_r 2 (Zdigits2 m) (d - 1)). lia.
  - pose proof (Z.pow_le_mono_r 2 d (Zdigits2 m - 1)). lia.
Qed.

Lemma Zdigits2_pos m : 0 < m -> 0 < Zdigits2 m.
Proof. destruct m; cbn; lia. Qed.


Lemma shr_1_m mrs : 0 <= shr_m mrs -> shr_m (shr_1 mrs) = shr_m mrs / 2.
Proof.
  destruct mrs as [m r s]. cbn [shr_m]. intros Hm.
  destruct m as [|[p|p|]|p]; cbn [shr_1 shr_m]; try lia; try reflexivity.
  - rewrite (Pos2Z.inj_xI p). Z.div_mod_to_equations. lia.
  - rewrite (Pos2Z.inj_xO p). Z.div_mod_to_equations. lia.
Qed.

Lemma shr_1_r mrs : 0 <= shr_m mrs -> shr_r (shr_1 mrs) = Z.testbit (shr_m mrs) 0.
Proof.
  destruct mrs as [m r s]. cbn [shr_m]. intros Hm.
  destruct m as [|[p|p|]|p]; cbn [shr_1 shr_r]; try lia; reflexivity.
Qed.

Lemma shr_iter_m p : forall mrs, 0 <= shr_m mrs ->
  shr_m (SpecFloat.iter_pos shr_1 p mrs) = shr_m mrs / 2 ^ Z.pos p.
Proof.
  induction p as [p IH|p IH|]; intros mrs Hm; cbn [SpecFloat.iter_pos].
  - assert (0 <= shr_m (shr_1 mrs)) as H1.
    { rewrite shr_1_m by done. apply Z.div_pos; lia. }
    assert (0 <= shr_m (SpecFloat.iter_pos shr_1 p (shr_1 mrs))) as H2.
    { rewrite IH by done. apply Z.div_pos; [done|]. apply Z.pow_pos_nonneg; lia. }
    rewrite IH, IH, shr_1_m by done.
    assert (0 < 2 ^ Z.pos p) by (apply Z.pow_pos_nonneg; lia).
    rewrite !Z.div_div by lia. f_equal.
    rewrite (Pos2Z.inj_xI p).
    replace (2 * Z.pos p + 1) with (1 + Z.pos p + Z.pos p) by lia.
    rewrite !Z.pow_add_r by lia. lia.
  - assert (0 <= shr_m (SpecFloat.iter_pos shr_1 p mrs)) as H2.
    { rewrite IH by done. apply Z.div_pos; [done|]. apply Z.pow_pos_nonneg; lia. }
    rewrite IH, IH by done.
    assert (0 < 2 ^ Z.pos p) by (apply Z.pow_pos_nonneg; lia).
    rewrite !Z.div_div by lia. f_equal.
    rewrite (Pos2Z.inj_xO p).
    replace (2 * Z.pos p) with (Z.pos p + Z.pos p) by lia.
    rewrite !Z.pow_add_r by lia. lia.
  - by rewrite shr_1_m.
Qed.

Lemma shr_iter_r p : forall mrs, 0 <= shr_m mrs ->
  shr_r (SpecFloat.iter_pos shr_1 p mrs) = Z.testbit (shr_m mrs) (Z.pos p - 1).
Proof.
  induction p as [p IH|p IH|]; intros mrs Hm; cbn [SpecFloat.iter_pos].
  - assert (0 <= shr_m (shr_1 mrs)) as H1.
    { rewrite shr_1_m by done. apply Z.div_pos; lia. }
    assert (0 <= shr_m (SpecFloat.iter_pos shr_1 p (shr_1 mrs))) as H2.
    { rewrite shr_iter_m by done. apply Z.div_pos; [done|]. apply Z.pow_pos_nonneg; lia. }
    rewrite IH, shr_iter_m, shr_1_m by done.
    rewrite Z.div_pow2_bits by lia.
    change (shr_m mrs / 2) with (shr_m mrs / 2 ^ 1).
    rewrite Z.div_pow2_bits by lia. f_equal. lia.
  - assert (0 <= shr_m (SpecFloat.iter_pos shr_1 p mrs)) as H2.
    { rewrite shr_iter_m by done. apply Z.div_pos; [done|]. apply Z.pow_pos_nonneg; lia. }
    rewrite IH, shr_iter_m by done.
    rewrite Z.div_pow2_bits by lia. f_equal. lia.
  - by rewrite shr_1_r.
Qed.

(** A set bit below position [n] bounds the remainder from below. *)
Lemma testbit_remainder m n :
  0 <= m -> 0 < n -> Z.testbit m (n - 1) = true ->
  (m / 2 ^ n) * 2 ^ n + 2 ^ (n - 1) <= m.
Proof.
  intros Hm Hn Hbit. apply Z.testbit_true in Hbit; [|lia].
  assert (0 < 2 ^ (n - 1)) as Hp by (apply Z.pow_pos_nonneg; lia).
  assert (2 ^ n = 2 ^ (n - 1) * 2) as Hpow.
  { replace n with (n - 1 + 1) at 1 by lia. by rewrite Z.pow_add_r by lia. }
  rewrite Hpow. rewrite <- Z.div_div by lia.
  set (a := m / 2 ^ (n - 1)) in *.
  assert (2 ^ (n - 1) * a <= m) by (apply Z.mul_div_le; lia).
  assert (a = 2 * (a / 2) + 1) by (Z.div_mod_to_equations; lia).
  nia.
Qed.

Lemma fexp_eq t : -149 <= t - 24 -> fexp prec emax t = t - 24.
Proof. unfold fexp, SpecFloat.emin, prec, emax. lia. Qed.

Lemma loc_record m l : loc_of_shr_record (shr_record_of_loc m l) = l.
Proof. by destruct l as [|[]]. Qed.

Lemma shr_m_record m l : shr_m (shr_record_of_loc m l) = m.
Proof. by destruct l as [|[]]. Qed.

Lemma round_nearest_even_cases m l :
  round_nearest_even m l = m \/
  (round_nearest_even m l = m + 1 /\ l <> loc_Exact /\ l <> loc_Inexact Lt).
Proof.
  destruct l as [|[]]; cbn; [by left | | by left | by right].
  destruct (Z.even m); [by left | by right].
Qed.

Lemma loc_round_up mrs :
  loc_of_shr_record mrs <> loc_Exact -> loc_of_shr_record mrs <> loc_Inexact Lt ->
  shr_r mrs = true.
Proof. by destruct mrs as [m [] []]. Qed.


(** Rounding a mantissa of [prec] digits or more, away from the subnormal
    range: the result is normal, its mantissa and the shift [δ] of its
    exponent by a carry do not depend on the exponent, and a carry out of an
    exact mantissa needs the mantissa within half a unit of the next power
    of two. *)
Lemma round_aux_spec s mx lx :
  0 < mx -> prec <= Zdigits2 mx ->
  exists m δ,
    Z.pos (digits2_pos m) = prec /\ 0 <= δ <= 1 /\
    (lx = loc_Exact -> δ = 1 ->
       prec < Zdigits2 mx /\ 2 ^ Zdigits2 mx <= mx + 2 ^ (Zdigits2 mx - prec - 1)) /\
    forall ex, -149 <= ex + Zdigits2 mx - prec ->
      binary_round_aux prec emax s mx ex lx =
        if ex + Zdigits2 mx - prec + δ <=? emax - prec
        then S754_finite s m (ex + Zdigits2 mx - prec + δ)
        else S754_infinity s.
Proof.
  intros Hm Hd. pose proof (Zdigits2_bounds mx Hm) as Hb.
  set (d := Zdigits2 mx) in *. set (n := d - prec).
  assert (0 <= n) as Hn by (unfold n; lia).
  set (mrs' := match n with
               | Z.pos p => SpecFloat.iter_pos shr_1 p (shr_record_of_loc mx lx)
               | _ => shr_record_of_loc mx lx
               end).
  assert (shr_m mrs' = mx / 2 ^ n) as Hm'.
  { unfold mrs'. destruct n as [|p|p]; [|by rewrite shr_iter_m; rewrite shr_m_record; [|lia] | lia].
    by rewrite shr_m_record, Z.pow_0_r, Z.div_1_r. }
  assert (0 < 2 ^ n) as Hpn by (apply Z.pow_pos_nonneg; lia).
  assert (2 ^ (prec - 1) <= shr_m mrs' < 2 ^ prec) as Hb'.
  { rewrite Hm'. split.
    - apply Z.div_le_lower_bound; [done|]. rewrite <- Z.pow_add_r by (unfold prec; lia).
      replace (n + (prec - 1)) with (d - 1) by (unfold n; lia). apply Hb.
    - apply Z.div_lt_upper_bound; [done|]. rewrite <- Z.pow_add_r by (unfold prec; lia).
      replace (n + prec) with d by (unfold n; lia). apply Hb. }
  assert (forall ex, -149 <= ex + d - prec ->
            shr_fexp prec emax mx ex lx = (mrs', ex + n)) as Hshr1.
  { intros ex Hex. unfold shr_fexp. fold d. rewrite fexp_eq by (unfold prec in *; lia).
    replace (d + ex - 24 - ex) with n by (unfold n, prec; lia).
    unfold shr, mrs'. destruct n as [|p|p]; [f_equal; lia | reflexivity | lia]. }
  set (m1 := round_nearest_even (shr_m mrs') (loc_of_shr_record mrs')).
  destruct (Z.eq_dec m1 (2 ^ prec)) as [Hcarry|Hnc].
  - exists (Z.to_pos (2 ^ (prec - 1))), 1. split_and!; [done | lia | lia | |].
    + intros -> _.
      destruct (round_nearest_even_cases (shr_m mrs') (loc_of_shr_record mrs'))
        as [Hsame|(Hup & Hl1 & Hl2)]; [fold m1 in Hsame; lia|].
      pose proof (loc_round_up _ Hl1 Hl2) as Hr.
      unfold mrs' in Hr, Hl1. destruct n as [|p|p] eqn:Hnp; [by rewrite loc_record in Hl1| |lia].
      rewrite shr_iter_r in Hr by (rewrite shr_m_record; lia). rewrite shr_m_record in Hr.
      split; [lia|].
      pose proof (testbit_remainder mx (Z.pos p) ltac:(lia) ltac:(lia) Hr) as Hrem.
      fold m1 in Hup. rewrite Hm' in Hup.
      assert (mx / 2 ^ Z.pos p = 2 ^ prec - 1) as Hq by lia. rewrite Hq in Hrem.
      replace (d - prec - 1) with (Z.pos p - 1) by lia.
      assert (2 ^ d = 2 ^ prec * 2 ^ Z.pos p) as Hpd.
      { rewrite <- Z.pow_add_r by (unfold prec; lia). f_equal. lia. }
      assert (2 ^ Z.pos p = 2 ^ (Z.pos p - 1) * 2) as Hpp.
      { replace (Z.pos p) with (Z.pos p - 1 + 1) at 1 by lia.
        by rewrite Z.pow_add_r by lia. }
      nia.
    + intros ex Hex. unfold binary_round_aux. rewrite Hshr1 by done. cbv beta iota.
      fold m1. rewrite Hcarry.
      unfold shr_fexp. change (Zdigits2 (2 ^ prec)) with 25.
      rewrite fexp_eq by (unfold n, prec in *; lia).
      replace (25 + (ex + n) - 24 - (ex + n)) with 1 by lia.
      cbn [shr]. cbv beta iota.
      change (shr_m (SpecFloat.iter_pos shr_1 1 (shr_record_of_loc (2 ^ prec) loc_Exact)))
        with (Z.pos (Z.to_pos (2 ^ (prec - 1)))).
      cbv beta iota.
      replace (ex + n + 1) with (ex + d - prec + 1) by (unfold n; lia). done.
  - assert (2 ^ (prec - 1) <= m1 < 2 ^ prec) as Hb1.
    { destruct (round_nearest_even_cases (shr_m mrs') (loc_of_shr_record mrs'))
        as [Hsame|(Hup & _)]; [fold m1 in Hsame | fold m1 in Hup]; lia. }
    assert (0 < m1) as Hm1 by (change (2 ^ (prec - 1)) with 8388608 in Hb1; lia).
    exists (Z.to_pos m1), 0. split_and!; [| lia | lia | intros; lia |].
    + pose proof (Zdigits2_unique m1 prec ltac:(done) Hb1) as Hd1.
      clearbody m1. destruct m1; try lia. exact Hd1.
    + intros ex Hex. unfold binary_round_aux. rewrite Hshr1 by done. cbv beta iota.
      fold m1. unfold shr_fexp.
      rewrite (Zdigits2_unique m1 prec) by done.
      rewrite fexp_eq by (unfold n, prec in *; lia).
      replace (prec + (ex + n) - 24 - (ex + n)) with 0 by (unfold prec; lia).
      cbn [shr]. cbv beta iota. rewrite shr_m_record.
      clearbody m1. destruct m1 as [|p1|p1]; try lia. cbn [Z.to_pos].
      replace (ex + n) with (ex + d - prec + 0) by (unfold n; lia). done.
Qed.


Lemma Zdigits2_range m a b :
  0 <= a -> 2 ^ a <= m < 2 ^ b -> a < Zdigits2 m <= b.
Proof.
  intros Ha [Hlo Hhi].
  assert (0 < m) as Hm by (pose proof (Z.pow_pos_nonneg 2 a); lia).
  pose proof (Zdigits2_bounds m Hm) as [Hlo' Hhi'].
  pose proof (Zdigits2_pos m Hm). split.
  - destruct (Z.lt_ge_cases a (Zdigits2 m)) as [|Hge]; [done|].
    pose proof (Z.pow_le_mono_r 2 (Zdigits2 m) a). lia.
  - destruct (Z.le_gt_cases (Zdigits2 m) b) as [|Hgt]; [done|].
    pose proof (Z.pow_le_mono_r 2 b (Zdigits2 m - 1)). lia.
Qed.

(** [x + x] of a normal number below the last binade: one more in the
    exponent. *)
Lemma add_diag s m e :
  Z.pos (digits2_pos m) = prec -> -149 <= e <= 103 ->
  add (S754_finite s m e) (S754_finite s m e) = S754_finite s m (e + 1).
Proof.
  intros Hd He. unfold add, SFadd. rewrite Z.min_id.
  unfold shl_align. rewrite Z.sub_diag. cbn [fst].
  assert (cond_Zopp s (Z.pos m) + cond_Zopp s (Z.pos m) = cond_Zopp s (Z.pos m~0)) as ->.
  { destruct s; cbn [cond_Zopp]; lia. }
  assert (binary_round prec emax s m~0 e = S754_finite s m (e + 1)) as Hround.
  { unfold binary_round. cbn [digits2_pos]. rewrite Pos2Z.inj_succ, Hd.
    rewrite fexp_eq by (unfold prec; lia). unfold shl_align.
    replace (Z.succ prec + e - 24 - e) with 1 by (unfold prec; lia).
    unfold binary_round_aux, shr_fexp. cbn [Zdigits2 digits2_pos].
    rewrite Pos2Z.inj_succ, Hd. rewrite fexp_eq by (unfold prec; lia).
    replace (Z.succ prec + e - 24 - e) with 1 by (unfold prec; lia).
    cbn [shr shr_record_of_loc SpecFloat.iter_pos shr_1 orb shr_m loc_of_shr_record
         round_nearest_even Zdigits2].
    rewrite Hd. rewrite fexp_eq by (unfold prec; lia).
    replace (prec + (e + 1) - 24 - (e + 1)) with 0 by (unfold prec; lia).
    cbn [shr shr_m].
    replace (e + 1 <=? emax - prec) with true; [done|].
    symmetry. apply Z.leb_le. unfold emax, prec. lia. }
  destruct s; cbn [cond_Zopp Z.opp binary_normalize]; exact Hround.
Qed.

(** A quotient depends on the difference of the exponents only. *)
Lemma div_scale k x y : div (scale k x) (scale k y) = div x y.
Proof.
  destruct x as [sx|sx| |sx mx ex], y as [sy|sy| |sy my ey]; try reflexivity.
  cbn [scale]. unfold div, SFdiv, SFdiv_core_binary.
  replace (Zdigits2 (Z.pos mx) + (ex + k) - (Zdigits2 (Z.pos my) + (ey + k)))
    with (Zdigits2 (Z.pos mx) + ex - (Zdigits2 (Z.pos my) + ey)) by lia.
  by replace (ex + k - (ey + k)) with (ex - ey) by lia.
Qed.

(** The square of a normal number of moderate size, and of its double. *)
Lemma mul_diag s m e :
  Z.pos (digits2_pos m) = prec -> -63 <= e <= 16 ->
  exists m' e',
    Z.pos (digits2_pos m') = prec /\ 2 * e + 23 <= e' <= 2 * e + 25 /\
    mul (S754_finite s m e) (S754_finite s m e) = S754_finite false m' e' /\
    mul (S754_finite s m (e + 1)) (S754_finite s m (e + 1)) = S754_finite false m' (e' + 2).
Proof.
  intros Hd He. pose proof (digits_bounds m) as Hb. rewrite Hd in Hb.
  change (2 ^ (prec - 1)) with 8388608 in Hb. change (2 ^ prec) with 16777216 in Hb.
  assert (46 < Zdigits2 (Z.pos (m * m)) <= 48) as HD.
  { apply Zdigits2_range; [lia|]. rewrite Pos2Z.inj_mul.
    change (2 ^ 46) with (8388608 * 8388608). change (2 ^ 48) with (16777216 * 16777216).
    nia. }
  destruct (round_aux_spec false (Z.pos (m * m)) loc_Exact) as (m' & δ & Hm' & Hδ & _ & Hr);
    [lia | unfold prec; lia |].
  exists m', (e + e + Zdigits2 (Z.pos (m * m)) - prec + δ).
  unfold mul, SFmul. replace (xorb s s) with false by (by destruct s).
  split_and!; [done | unfold prec; lia | unfold prec; lia | |].
  - rewrite Hr by (unfold prec; lia).
    replace (_ <=? _) with true; [done|]. symmetry. apply Z.leb_le. unfold emax, prec. lia.
  - rewrite Hr by (unfold prec; lia).
    replace (_ <=? _) with true; [f_equal; lia|]. symmetry. apply Z.leb_le. unfold emax, prec. lia.
Qed.


Lemma shl_align_fst mx ex ez :
  ez <= ex -> Z.pos (fst (shl_align mx ex ez)) = Z.pos mx * 2 ^ (ex - ez).
Proof.
  intros H. unfold shl_align. destruct (ez - ex) as [|p|p] eqn:Hs; cbn [fst].
  - replace (ex - ez) with 0 by lia. lia.
  - lia.
  - change (Pos.iter xO mx p) with (shift_pos p mx).
    rewrite shift_pos_correct, Z.pow_pos_fold. replace (ex - ez) with (Z.pos p) by lia. lia.
Qed.

Lemma shl_align_shift mx ex ez k :
  fst (shl_align mx (ex + k) (ez + k)) = fst (shl_align mx ex ez).
Proof.
  unfold shl_align. replace (ez + k - (ex + k)) with (ez - ex) by lia.
  by destruct (ez - ex).
Qed.

Lemma binary_round_big s mx ex :
  prec <= Z.pos (digits2_pos mx) -> -149 <= ex + Z.pos (digits2_pos mx) - prec ->
  binary_round prec emax s mx ex = binary_round_aux prec emax s (Z.pos mx) ex loc_Exact.
Proof.
  intros Hd He. unfold binary_round. rewrite fexp_eq by (unfold prec in *; lia).
  unfold shl_align.
  destruct (Z.pos (digits2_pos mx) + ex - 24 - ex) as [|p|p] eqn:Hs;
    [done | done | unfold prec in *; lia].
Qed.

(** The sum of two positive normal numbers: normal, with the greater
    exponent or the next one, and the same mantissa when both exponents are
    raised by [k]. *)
Lemma add_normal ma ea mb eb :
  Z.pos (digits2_pos ma) = prec -> Z.pos (digits2_pos mb) = prec ->
  -149 <= ea -> -149 <= eb ->
  exists m e,
    Z.pos (digits2_pos m) = prec /\ Z.max ea eb <= e <= Z.max ea eb + 1 /\
    forall k, 0 <= k -> e + k <= 104 ->
      add (S754_finite false ma (ea + k)) (S754_finite false mb (eb + k))
        = S754_finite false m (e + k).
Proof.
  intros Ha Hb Hea Heb.
  pose proof (digits_bounds ma) as Hba. rewrite Ha in Hba.
  pose proof (digits_bounds mb) as Hbb. rewrite Hb in Hbb.
  change (2 ^ (prec - 1)) with 8388608 in *. change (2 ^ prec) with 16777216 in *.
  set (ez := Z.min ea eb). set (M := Z.max ea eb - ez).
  set (p := (fst (shl_align ma ea ez) + fst (shl_align mb eb ez))%positive).
  assert (0 < 2 ^ M) as HpM by (apply Z.pow_pos_nonneg; unfold M, ez; lia).
  assert (8388608 * 2 ^ M <= Z.pos p /\ Z.pos p + 2 * 2 ^ M <= 33554432 * 2 ^ M) as [Hlo Hhi].
  { unfold p. rewrite Pos2Z.inj_add, !shl_align_fst by (unfold ez; lia).
    destruct (Z.le_ge_cases ea eb) as [Hle|Hge].
    - replace (ea - ez) with 0 by (unfold ez; lia).
      replace (eb - ez) with M by (unfold M, ez; lia). rewrite Z.pow_0_r. nia.
    - replace (eb - ez) with 0 by (unfold ez; lia).
      replace (ea - ez) with M by (unfold M, ez; lia). rewrite Z.pow_0_r. nia. }
  assert (0 <= M) as HM by (unfold M, ez; lia).
  assert (23 + M < Zdigits2 (Z.pos p) <= 25 + M) as HD.
  { apply Zdigits2_range; [lia|].
    rewrite !Z.pow_add_r by lia. change (2 ^ 23) with 8388608. change (2 ^ 25) with 33554432.
    lia. }
  destruct (round_aux_spec false (Z.pos p) loc_Exact) as (m & δ & Hm & Hδ & Hcarry & Hr);
    [lia | unfold prec; lia |].
  assert (Zdigits2 (Z.pos p) = 25 + M -> δ = 0) as Hnocarry.
  { intros HD'. destruct (Z.eq_dec δ 1) as [->|]; [|lia].
    destruct (Hcarry eq_refl eq_refl) as [_ Hc]. rewrite HD' in Hc.
    replace (25 + M - prec - 1) with M in Hc by (unfold prec; lia).
    rewrite Z.pow_add_r in Hc by lia. change (2 ^ 25) with 33554432 in Hc. lia. }
  exists m, (ez + Zdigits2 (Z.pos p) - prec + δ).
  split_and!; [done | unfold M, ez, prec in *; lia | unfold M, ez, prec in *; lia |].
  intros k Hk Hov. unfold add, SFadd.
  replace (Z.min (ea + k) (eb + k)) with (ez + k) by (unfold ez; lia).
  rewrite !shl_align_shift. cbn [cond_Zopp]. rewrite <- Pos2Z.inj_add. fold p.
  cbn [binary_normalize].
  rewrite binary_round_big by (cbn [Zdigits2] in HD; unfold prec, ez in *; lia).
  rewrite Hr by (unfold prec, ez in *; lia).
  replace (_ <=? _) with true; [f_equal; lia|].
  symmetry. apply Z.leb_le. unfold emax, prec in *. lia.
Qed.


(** The square root of a positive normal number, and of four times it. *)
Lemma sqrt_normal m e :
  Z.pos (digits2_pos m) = prec -> -103 <= e <= 101 ->
  exists m' e',
    Z.pos (digits2_pos m') = prec /\ -63 <= e' <= 40 /\
    sqrt (S754_finite false m e) = S754_finite false m' e' /\
    sqrt (S754_finite false m (e + 2)) = S754_finite false m' (e' + 1).
Proof.
  intros Hd He. pose proof (digits_bounds m) as Hb. rewrite Hd in Hb.
  change (2 ^ (prec - 1)) with 8388608 in Hb. change (2 ^ prec) with 16777216 in Hb.
  set (e0 := Z.div2 (e + 25) - 24).
  assert (e - 2 * e0 = 23 \/ e - 2 * e0 = 24) as Hs.
  { unfold e0. rewrite Z.div2_div. Z.div_mod_to_equations. lia. }
  assert (-63 <= e0 <= 39) as He0.
  { unfold e0. rewrite Z.div2_div. Z.div_mod_to_equations. lia. }
  set (m0 := Z.pos m * 2 ^ (e - 2 * e0)).
  assert (2 ^ 46 <= m0 < 2 ^ 48) as Hm0.
  { unfold m0. destruct Hs as [-> | ->].
    - change (2 ^ 23) with 8388608. change (2 ^ 46) with (8388608 * 8388608).
      change (2 ^ 48) with (16777216 * 16777216). lia.
    - change (2 ^ 24) with 16777216. change (2 ^ 46) with (8388608 * 8388608).
      change (2 ^ 48) with (16777216 * 16777216). lia. }
  assert (forall k, 0 <= k <= 1 ->
            SFsqrt_core_binary prec emax (Z.pos m) (e + 2 * k)
            = (let (q, r) := Z.sqrtrem m0 in
               (q, e0 + k,
                if r =? 0 then loc_Exact else loc_Inexact (if r <=? q then Lt else Gt))))
    as Hcore.
  { intros k Hk. unfold SFsqrt_core_binary. cbn [Zdigits2]. rewrite Hd.
    rewrite fexp_eq.
    2: { rewrite Z.div2_div. unfold prec. Z.div_mod_to_equations. lia. }
    replace (Z.min (Z.div2 (prec + (e + 2 * k) + 1) - 24) (Z.div2 (e + 2 * k)))
      with (e0 + k).
    2: { unfold e0, prec. rewrite !Z.div2_div. Z.div_mod_to_equations. lia. }
    replace (e + 2 * k - 2 * (e0 + k)) with (e - 2 * e0) by lia.
    assert (match e - 2 * e0 with
            | 0 => Z.pos m
            | Z.pos _ => Z.shiftl (Z.pos m) (e - 2 * e0)
            | Z.neg _ => 0
            end = m0) as ->; [|done].
    unfold m0. destruct Hs as [-> | ->]; by rewrite Z.shiftl_mul_pow2. }
  destruct (Z.sqrtrem m0) as [q r] eqn:Hqr.
  assert (q = Z.sqrt m0) as Hq by (by rewrite <- Z.sqrtrem_sqrt, Hqr).
  assert (2 ^ (prec - 1) <= q < 2 ^ prec) as Hbq.
  { rewrite Hq. change (2 ^ (prec - 1)) with 8388608. change (2 ^ prec) with 16777216.
    change (2 ^ 46) with (8388608 * 8388608) in Hm0.
    change (2 ^ 48) with (16777216 * 16777216) in Hm0. split.
    - apply Z.sqrt_le_square; lia.
    - apply Z.sqrt_lt_square; lia. }
  pose proof (Zdigits2_unique q prec ltac:(done) Hbq) as Hdq.
  set (l := if r =? 0 then loc_Exact else loc_Inexact (if r <=? q then Lt else Gt)) in *.
  destruct (round_aux_spec false q l) as (m' & δ & Hm' & Hδ & _ & Hr);
    [change (2 ^ (prec - 1)) with 8388608 in Hbq; lia | lia |].
  rewrite Hdq in Hr.
  exists m', (e0 + δ). split_and!; [done | lia | lia | |].
  - unfold sqrt, SFsqrt. replace e with (e + 2 * 0) by lia. rewrite Hcore by lia.
    rewrite Hr by (unfold prec; lia).
    replace (_ <=? _) with true; [f_equal; unfold prec; lia|].
    symmetry. apply Z.leb_le. unfold emax, prec. lia.
  - unfold sqrt, SFsqrt. replace (e + 2) with (e + 2 * 1) by lia. rewrite Hcore by lia.
    rewrite Hr by (unfold prec; lia).
    replace (_ <=? _) with true; [f_equal; unfold prec; lia|].
    symmetry. apply Z.leb_le. unfold emax, prec. lia.
Qed.


Lemma normal_inv lo hi x :
  normal lo hi x = true ->
  exists s m e, x = S754_finite s m e /\ Z.pos (digits2_pos m) = prec /\ lo <= e <= hi.
Proof.
  destruct x as [| | |s m e]; try discriminate. unfold normal. intros H.
  apply andb_prop in H as [H He2]. apply andb_prop in H as [Hd He1].
  apply Z.eqb_eq in Hd. apply Z.leb_le in He1, He2. by exists s, m, e.
Qed.

Lemma moderate_inv x :
  moderate x = true ->
  x = zero \/ exists s m e, x = S754_finite s m e /\ Z.pos (digits2_pos m) = prec /\
                             -63 <= e <= -12.
Proof.
  destruct x as [[]| | |s m e]; try discriminate; [by left|].
  intros H. right. by apply normal_inv.
Qed.

Lemma moderate_normal x :
  moderate x = true -> x = zero \/ normal (-149) 103 x = true.
Proof.
  intros H. apply moderate_inv in H as [->|(s & m & e & -> & Hd & He)]; [by left|].
  right. unfold normal. rewrite Hd, Z.eqb_refl.
  apply andb_true_intro. split; apply Z.leb_le; lia.
Qed.

Lemma add_zero_moderate x : moderate x = true -> add zero x = x.
Proof. by destruct x as [[]| | |]. Qed.

(** [x + x] raises the exponent of [x], when [x] is zero or normal below the
    last binade. *)
Lemma add_diag_scale x :
  x = zero \/ normal (-149) 103 x = true -> add x x = scale 1 x.
Proof.
  intros [->|H]; [done|].
  apply normal_inv in H as (s & m & e & -> & Hd & He). by apply add_diag.
Qed.

End F32Scaling.

(** ** The reference [argsort] sorts, and the reference [norm] doubles *)

Module ReferenceFacts.
Import Reference.

Lemma insert_perm xs i l : insert xs i l ≡ₚ i :: l.
Proof.
  induction l as [|j l IH]; cbn; [done|].
  destruct (F32.lt _ _); [|done].
  rewrite IH. apply Permutation_swap.
Qed.

Lemma argsort_perm xs : argsort xs ≡ₚ seq 0 (length xs).
Proof.
  unfold argsort. induction (seq 0 (length xs)) as [|i l IH]; cbn; [done|].
  by rewrite insert_perm, IH.
Qed.

Lemma insert_HdRel (P : nat -> nat -> Prop) xs a i l :
  P a i -> HdRel P a l -> HdRel P a (insert xs i l).
Proof.
  intros Hi Hl. destruct l as [|j l]; cbn; [by constructor|].
  destruct (F32.lt _ _); constructor; [|done]. by inversion Hl.
Qed.

Lemma insert_sorted xs i l :
  Sorted (fun i j => F32.le (key xs i) (key xs j) = true) l ->
  Sorted (fun i j => F32.le (key xs i) (key xs j) = true) (insert xs i l).
Proof.
  induction 1 as [|j l Hl IH Hj]; cbn; [by repeat constructor|].
  destruct (F32.lt (key xs j) (key xs i)) eqn:Hlt.
  - constructor; [done|]. apply insert_HdRel; [|done].
    by apply F32Facts.lt_le.
  - repeat constructor; try done. unfold F32.le. by rewrite Hlt.
Qed.

Lemma argsort_sorted xs :
  Sorted (fun i j => F32.le (key xs i) (key xs j) = true) (argsort xs).
Proof.
  unfold argsort. induction (seq 0 (length xs)) as [|i l IH]; cbn.
  - constructor.
  - by apply insert_sorted.
Qed.

Lemma argsort_sorts : sorts argsort.
Proof. intros xs. split; [apply argsort_perm | apply argsort_sorted]. Qed.

Section SumOfSquares.
Import F32 F32Scaling.
Local Open Scope Z_scope.

Lemma sum_squares_step k acc x :
  0 <= k <= 100 -> partial k acc -> moderate x = true ->
  partial (k + 1) (add acc (mul x x)) /\
  add (scale 2 acc) (mul (add x x) (add x x)) = scale 2 (add acc (mul x x)).
Proof.
  intros Hk Hacc Hx. apply moderate_inv in Hx as [->|(s & m & e & -> & Hd & He)].
  - change (add zero zero) with zero. change (mul zero zero) with zero.
    assert (add acc zero = acc) as Hz.
    { destruct Hacc as [->|(ma & ea & -> & _)]; reflexivity. }
    assert (add (scale 2 acc) zero = scale 2 acc) as Hz'.
    { destruct Hacc as [->|(ma & ea & -> & _)]; reflexivity. }
    rewrite Hz, Hz'. split; [|done].
    destruct Hacc as [->|(ma & ea & -> & Hda & Hea)]; [by left|].
    right. exists ma, ea. split_and!; [done | done | lia..].
  - rewrite add_diag by lia.
    destruct (mul_diag s m e Hd ltac:(lia)) as (m' & e' & Hd' & He' & -> & ->).
    destruct Hacc as [->|(ma & ea & -> & Hda & Hea)].
    + change (add zero ?y) with y. cbn [scale]. split; [|done].
      right. exists m', e'. split_and!; [done | done | lia..].
    + destruct (add_normal ma ea m' e' Hda Hd' ltac:(lia) ltac:(lia))
        as (m'' & e'' & Hd'' & He'' & Hadd).
      pose proof (Hadd 0 ltac:(lia) ltac:(lia)) as H0. rewrite !Z.add_0_r in H0.
      pose proof (Hadd 2 ltac:(lia) ltac:(lia)) as H2.
      rewrite H0. cbn [scale]. rewrite H2. split; [|done].
      right. exists m'', e''. split_and!; [done | done | lia..].
Qed.

Lemma sum_squares_scale v : forall k acc,
  0 <= k -> partial k acc -> Forall (fun x => moderate x = true) v ->
  k + Z.of_nat (length v) <= 101 ->
  partial (k + Z.of_nat (length v)) (foldl (fun acc x => add acc (mul x x)) acc v) /\
  foldl (fun acc x => add acc (mul x x)) (scale 2 acc) ((fun x => add x x) <$> v)
    = scale 2 (foldl (fun acc x => add acc (mul x x)) acc v).
Proof.
  induction v as [|x v IH]; intros k acc Hk Hacc Hv Hlen.
  - cbn. split; [|done]. by rewrite Z.add_0_r.
  - apply Forall_cons in Hv as [Hx Hv]. cbn [length] in Hlen.
    destruct (sum_squares_step k acc x ltac:(lia) Hacc Hx) as [Hacc' Hstep].
    rewrite fmap_cons. cbn [foldl]. rewrite Hstep.
    destruct (IH (k + 1) (add acc (mul x x)) ltac:(lia) Hacc' Hv ltac:(lia)) as [Hp Hf].
    split; [|done]. cbn [length]. by replace (k + Z.of_nat (S (length v)))
      with (k + 1 + Z.of_nat (length v)) by lia.
Qed.

(** The norm of the reference instance commutes with doubling. *)
Lemma norm_doubles : doubles norm.
Proof.
  intros v Hv Hlen. unfold norm.
  destruct (sum_squares_scale v 0 zero ltac:(lia) ltac:(by left) Hv ltac:(lia))
    as [Hp Hf].
  change (scale 2 zero) with zero in Hf. fold zero. rewrite Hf.
  destruct Hp as [->|(m & e & -> & Hd & He)].
  - split; [by left|]. reflexivity.
  - destruct (sqrt_normal m e Hd ltac:(lia)) as (m' & e' & Hd' & He' & Hs & Hs2).
    cbn [scale]. rewrite Hs, Hs2. split.
    + right. unfold normal. rewrite Hd', Z.eqb_refl.
      apply andb_true_intro. split; apply Z.leb_le; lia.
    + by rewrite add_diag by lia.
Qed.

End SumOfSquares.

End ReferenceFacts.


(** ** What a successful load establishes *)

Section LoadFacts.
Context {np : NumPy}.

Lemma bind_Ok {A B} (r : result A) (k : A -> result B) b :
  r ≫= k = Ok b -> exists a, r = Ok a /\ k a = Ok b.
Proof. destruct r as [a|e]; cbn; [eauto | discriminate]. Qed.

Lemma bind_Raise {A B} (r : result A) (k : A -> result B) e :
  r ≫= k = Raise e -> r = Raise e \/ exists a, r = Ok a /\ k a = Raise e.
Proof. destruct r as [a|e']; cbn; [eauto | intros [= ->]; eauto]. Qed.

Lemma mapM_Ok {A B} (f : A -> result B) l bs :
  mapM f l = Ok bs -> Forall2 (fun a b => f a = Ok b) l bs.
Proof.
  revert bs. induction l as [|a l IH]; cbn; intros bs Hbs.
  - injection Hbs as <-. constructor.
  - apply bind_Ok in Hbs as (b & Hb & Hbs).
    apply bind_Ok in Hbs as (bs' & Hbs' & [= <-]).
    constructor; auto.
Qed.

Lemma mapM_Raise {A B} (f : A -> result B) l e :
  mapM f l = Raise e -> exists a, a ∈ l /\ f a = Raise e.
Proof.
  induction l as [|a l IH]; cbn; [discriminate|]. intros Hr.
  apply bind_Raise in Hr as [Hr|(b & Hb & Hr)].
  - exists a. split; [left | done].
  - apply bind_Raise in Hr as [Hr|(bs & _ & Hr)]; [|discriminate].
    destruct (IH Hr) as (a' & Ha' & Hf). exists a'. split; [by right | done].
Qed.

Lemma mapM_fmap {A B} (f : A -> result B) (g : A -> B) l :
  (forall a, a ∈ l -> f a = Ok (g a)) -> mapM f l = Ok (g <$> l).
Proof.
  induction l as [|a l IH]; cbn; intros Hf; [done|].
  rewrite Hf by left. cbn. rewrite IH; [done|]. intros a' Ha'. apply Hf. by right.
Qed.

Lemma asarray_Ok values row :
  asarray values = Ok row ->
  Forall2 (fun tok x => asfloat32 tok = Some x) values row.
Proof.
  intros H. apply mapM_Ok in H. eapply Forall2_impl; [exact H|].
  cbn. intros tok x. by destruct (asfloat32 tok); intros [= ->].
Qed.

Lemma asarray_Raise values e : asarray values = Raise e -> e = ValueError.
Proof.
  intros H. apply mapM_Raise in H as (tok & _ & H).
  destruct (asfloat32 tok); [discriminate | by injection H].
Qed.


Lemma loop_body_Ok index vectors n line st :
  loop_body (index, vectors, n) line = Ok st ->
  exists word row, parses line word row /\
    st = (<[word := n]> index, vectors ++ [row], S n).
Proof.
  unfold loop_body, parses. destruct (Text.decodes line); [|discriminate].
  destruct (Text.split line) as [|word values]; [discriminate|].
  intros H. apply bind_Ok in H as (row & Hrow & [= <-]). eauto 7.
Qed.

Lemma loop_body_Raise st line e : loop_body st line = Raise e -> ParseError e.
Proof.
  destruct st as [[index vectors] n]. unfold loop_body, ParseError.
  destruct (Text.decodes line); [|intros [= <-]; auto].
  destruct (Text.split line) as [|word values]; [intros [= <-]; auto|].
  intros H. apply bind_Raise in H as [H|(? & _ & [=])].
  apply asarray_Raise in H. auto.
Qed.

Lemma load_loop_app l1 l2 st :
  load_loop (l1 ++ l2) st = load_loop l1 st ≫= load_loop l2.
Proof.
  revert st. induction l1 as [|line l1 IH]; intros st; cbn; [done|].
  destruct (loop_body st line) as [st'|e]; cbn; [apply IH | done].
Qed.

Lemma load_loop_Raise lines st e : load_loop lines st = Raise e -> ParseError e.
Proof.
  revert st. induction lines as [|line lines IH]; intros st; cbn; [discriminate|].
  intros H. apply bind_Raise in H as [H|(st' & _ & H)]; [|by eapply IH].
  by eapply loop_body_Raise.
Qed.

Lemma file_words_snoc lines line word row :
  parses line word row -> file_words (lines ++ [line]) = file_words lines ++ [word].
Proof.
  intros (_ & values & Hs & _). unfold file_words. rewrite fmap_app. cbn. by rewrite Hs.
Qed.

(** After the loop: one row per line, [word_idx] lines read, and every word
    bound to the position of its last line. *)
Lemma load_loop_spec lines index vectors n :
  load_loop lines (∅, [], 0) = Ok (index, vectors, n) ->
  n = length lines /\
  Forall2 (fun line row => exists word, parses line word row) lines vectors /\
  forall w i, index !! w = Some i <->
    file_words lines !! i = Some w /\
    forall k, i < k -> file_words lines !! k <> Some w.
Proof.
  revert index vectors n. induction lines as [|line lines IH] using rev_ind;
    intros index vectors n.
  - cbn. intros [= <- <- <-]. split_and!; [done | constructor |].
    intros w i. rewrite lookup_empty. split; [done | by intros [? _]].
  - rewrite load_loop_app. intros H.
    apply bind_Ok in H as ([[index0 vectors0] n0] & H0 & H).
    destruct (IH _ _ _ H0) as (-> & Hrows & Hidx). cbn in H.
    apply bind_Ok in H as (st & Hst & [= ->]).
    apply loop_body_Ok in Hst as (word & row & Hp & [= -> -> ->]).
    rewrite (file_words_snoc _ _ _ _ Hp).
    assert (length (file_words lines) = length lines) as Hlen
      by (unfold file_words; by rewrite length_fmap).
    split_and!.
    + rewrite length_app. cbn. lia.
    + apply Forall2_app; [done|]. repeat constructor. by exists word.
    + intros w i. destruct (decide (w = word)) as [->|Hne].
      * rewrite lookup_insert_eq. split.
        -- intros [= <-]. split.
           ++ rewrite lookup_app_r by lia. by rewrite Hlen, Nat.sub_diag.
           ++ intros k Hk. rewrite lookup_ge_None_2; [done|].
              rewrite length_app. cbn. lia.
        -- intros [Hi Hlast]. f_equal.
           destruct (decide (i < length lines)) as [Hlt|Hge].
           ++ destruct (Hlast (length lines) Hlt).
              rewrite lookup_app_r by lia. by rewrite Hlen, Nat.sub_diag.
           ++ apply lookup_lt_Some in Hi. rewrite length_app in Hi. cbn in Hi. lia.
      * rewrite lookup_insert_ne by done. rewrite Hidx. split.
        -- intros [Hi Hlast]. split.
           ++ by apply lookup_app_l_Some.
           ++ intros k Hk. destruct (decide (k < length lines)) as [Hlt|Hge].
              ** rewrite lookup_app_l by lia. by apply Hlast.
              ** intros Hk'. apply lookup_app_Some in Hk' as [Hk'|[_ Hk']].
                 { apply lookup_lt_Some in Hk'. lia. }
                 apply list_lookup_singleton_Some in Hk' as [_ ?]. done.
        -- intros [Hi Hlast].
           apply lookup_app_Some in Hi as [Hi|[_ Hi]].
           ++ split; [done|]. intros k Hk Hk'. apply (Hlast k Hk).
              by apply lookup_app_l_Some.
           ++ apply list_lookup_singleton_Some in Hi as [_ ?]. done.
Qed.

Lemma vstack_Ok vectors emb :
  vstack vectors = Ok emb ->
  emb = vectors /\ vectors <> [] /\
  exists d, Forall (fun row => length row = d) vectors.
Proof.
  unfold vstack. destruct vectors as [|v vs]; [discriminate|].
  destruct (forallb _ vs) eqn:Hall; [|discriminate]. intros [= <-].
  split_and!; [done..|]. exists (length v). constructor; [done|].
  apply Forall_forall. intros u Hu. apply list_elem_of_In in Hu.
  rewrite forallb_forall in Hall. by apply Nat.eqb_eq, Hall.
Qed.

Lemma vstack_Raise vectors e : vstack vectors = Raise e -> e = ValueError.
Proof.
  unfold vstack. destruct vectors as [|v vs]; [by intros [= <-]|].
  destruct (forallb _ vs); [discriminate | by intros [= <-]].
Qed.

Lemma invert_lookup (index : gmap string nat) i w :
  (forall w1 w2 j, index !! w1 = Some j -> index !! w2 = Some j -> w1 = w2) ->
  invert index !! i = Some w <-> index !! w = Some i.
Proof.
  intros Hinj. unfold invert. rewrite <- elem_of_list_to_map.
  - rewrite list_elem_of_fmap. split.
    + intros ([w' i'] & [= -> ->] & Hin). by apply elem_of_map_to_list in Hin.
    + intros Hin. exists (w, i). split; [done|]. by apply elem_of_map_to_list.
  - rewrite <- list_fmap_compose.
    apply NoDup_fmap_2_strong; [|apply NoDup_map_to_list].
    intros [w1 j1] [w2 j2] H1 H2. cbn. intros ->.
    apply elem_of_map_to_list in H1, H2. f_equal. eauto.
Qed.


Lemma load_Loaded file E : load file = Ok E -> Loaded file E.
Proof.
  unfold load. intros H.
  apply bind_Ok in H as ([[index vectors] n] & Hloop & H). cbn in H.
  apply bind_Ok in H as (emb & Hemb & [= <-]).
  apply load_loop_spec in Hloop as (-> & Hrows & Hidx).
  apply vstack_Ok in Hemb as (-> & Hne & Hdim).
  split; cbn; try done.
  - intros ->. by apply Forall2_nil_inv_l in Hrows.
  - intros i w. apply invert_lookup. intros w1 w2 j H1 H2.
    apply Hidx in H1 as [H1 _], H2 as [H2 _]. congruence.
Qed.

Lemma load_Raise file e : load file = Raise e -> ParseError e.
Proof.
  unfold load. intros H. apply bind_Raise in H as [H|(st & _ & H)].
  - by eapply load_loop_Raise.
  - apply bind_Raise in H as [H|(? & _ & [=])].
    apply vstack_Raise in H. by left.
Qed.

End LoadFacts.

(** ** Lookups and the query vector on a loaded index *)

Section QueryFacts.
Context {np : NumPy}.

Lemma file_words_length file : length (file_words file) = length file.
Proof. unfold file_words. by rewrite length_fmap. Qed.

Lemma Loaded_length file E : Loaded file E -> length (glove_embeddings E) = length file.
Proof. intros HL. symmetry. eapply Forall2_length, loaded_rows, HL. Qed.

Lemma Loaded_index_lt file E w i :
  Loaded file E -> embeddings_index E !! w = Some i -> i < length file.
Proof.
  intros HL Hw. apply (loaded_index _ _ HL) in Hw as [Hw _].
  apply lookup_lt_Some in Hw. by rewrite file_words_length in Hw.
Qed.

Lemma get_emb_present file E w i :
  Loaded file E -> embeddings_index E !! w = Some i ->
  exists v, glove_embeddings E !! i = Some v /\
    get_emb E w = Ok (Some v) /\
    get_normed_emb E w = Ok (Some (normalize v)).
Proof.
  intros HL Hw. destruct (lookup_lt_is_Some_2 (glove_embeddings E) i) as [v Hv].
  { rewrite (Loaded_length _ _ HL). by eapply Loaded_index_lt. }
  exists v. unfold get_emb, get_normed_emb, getitem.
  rewrite Hw, (loaded_normed _ _ HL), list_lookup_fmap, Hv. done.
Qed.

Lemma get_emb_absent E w : embeddings_index E !! w = None -> get_emb E w = Ok None.
Proof. unfold get_emb. by intros ->. Qed.

Lemma get_emb_Some file E w v :
  Loaded file E -> get_emb E w = Ok (Some v) ->
  exists i, embeddings_index E !! w = Some i /\ glove_embeddings E !! i = Some v.
Proof.
  intros HL Hv. destruct (embeddings_index E !! w) as [i|] eqn:Hw.
  - destruct (get_emb_present _ _ _ _ HL Hw) as (v' & Hv' & Hg & _).
    exists i. split; [done|]. congruence.
  - rewrite (get_emb_absent _ _ Hw) in Hv. discriminate.
Qed.

Lemma get_emb_dim file E :
  Loaded file E ->
  exists d, Forall (fun row => length row = d) (glove_embeddings E) /\
    forall w v, get_emb E w = Ok (Some v) -> length v = d.
Proof.
  intros HL. destruct (loaded_dim _ _ HL) as [d Hd]. exists d. split; [done|].
  intros w v Hv. destruct (get_emb_Some _ _ _ _ HL Hv) as (i & _ & Hi).
  by eapply (Forall_lookup_1 _ _ _ _ Hd).
Qed.

Lemma known_words_vectors file E ws :
  Loaded file E ->
  (forall w, w ∈ ws -> is_Some (embeddings_index E !! w)) ->
  exists vs, Forall2 (fun w v => get_emb E w = Ok (Some v)) ws vs.
Proof.
  intros HL. induction ws as [|w ws IH]; intros Hws.
  - exists []. constructor.
  - destruct (Hws w) as [i Hi]; [left|].
    destruct (get_emb_present _ _ _ _ HL Hi) as (v & _ & Hv & _).
    destruct IH as [vs Hvs]; [intros; apply Hws; by right|].
    exists (v :: vs). by constructor.
Qed.

Lemma sum_loop_arr E d ws vs u :
  Forall2 (fun w v => get_emb E w = Ok (Some v)) ws vs ->
  Forall (fun v => length v = d) vs -> length u = d ->
  sum_loop E ws (PyArr u) = Ok (PyArr (foldl (zip_with F32.add) u vs)).
Proof.
  intros Hvs. revert u. induction Hvs as [|w v ws vs Hv Hvs IH]; intros u Hd Hu; [done|].
  apply Forall_cons in Hd as [Hv' Hd]. cbn. rewrite Hv. cbn.
  rewrite decide_True by congruence. cbn. apply IH; [done|].
  rewrite length_zip_with. lia.
Qed.

(** The loop over a list of known words leaves their elementwise sum. *)
Lemma query_emb_words E d ws vs :
  ws <> [] ->
  Forall2 (fun w v => get_emb E w = Ok (Some v)) ws vs ->
  Forall (fun v => length v = d) vs ->
  query_emb E (Words ws) = Ok (PyArr (elementwise_sum d vs)).
Proof.
  intros Hne Hvs Hd. destruct Hvs as [|w v ws vs Hv Hvs]; [done|].
  apply Forall_cons in Hd as [Hv' Hd]. cbn. rewrite Hv. cbn.
  unfold elementwise_sum. cbn. rewrite zip_with_replicate_l by lia.
  eapply sum_loop_arr; [done..|]. by rewrite length_fmap.
Qed.

Lemma query_emb_known file E q :
  Loaded file E -> in_vocabulary E q -> exists v, query_emb E q = Ok (PyArr v).
Proof.
  intros HL [Hne Hq]. destruct q as [w|ws]; cbn in *.
  - destruct (Hq w) as [i Hi]; [left|].
    destruct (get_emb_present _ _ _ _ HL Hi) as (v & _ & Hv & _).
    exists v. by rewrite Hv.
  - destruct (known_words_vectors _ _ _ HL Hq) as [vs Hvs].
    destruct (get_emb_dim _ _ HL) as (d & _ & Hd).
    exists (elementwise_sum d vs). apply query_emb_words; [done..|].
    apply Forall_forall. intros v Hv.
    apply list_elem_of_lookup in Hv as [k Hk].
    destruct (Forall2_lookup_r _ _ _ _ _ Hvs Hk) as (w & _ & Hw). eauto.
Qed.

(** The first unknown word of a list stops the loop. *)
Lemma sum_loop_unknown file E ws acc :
  Loaded file E ->
  (exists w, w ∈ ws /\ embeddings_index E !! w = None) ->
  (acc = PyZero \/ exists u, acc = PyArr u /\
     Forall (fun row => length row = length u) (glove_embeddings E)) ->
  sum_loop E ws acc = Raise TypeError.
Proof.
  intros HL. revert acc. induction ws as [|w ws IH]; intros acc (w0 & Hin & Hw0) Hacc.
  - by apply elem_of_nil in Hin.
  - cbn. destruct (embeddings_index E !! w) as [i|] eqn:Hw.
    + destruct (get_emb_present _ _ _ _ HL Hw) as (v & Hi & Hv & _).
      rewrite Hv. cbn.
      assert (exists w, w ∈ ws /\ embeddings_index E !! w = None) as Hrest.
      { apply elem_of_cons in Hin as [->|Hin]; [congruence | eauto]. }
      destruct Hacc as [->|(u & -> & Hu)]; cbn.
      * apply IH; [done|]. right. eexists. split; [done|].
        rewrite length_fmap. destruct (loaded_dim _ _ HL) as [d Hd].
        rewrite (Forall_lookup_1 _ _ _ _ Hd Hi). done.
      * rewrite decide_True by (symmetry; apply (Forall_lookup_1 _ _ _ _ Hu Hi)).
        cbn. apply IH; [done|]. right. eexists. split; [done|].
        assert (length (zip_with F32.add u v) = length u) as ->; [|done].
        rewrite length_zip_with, (Forall_lookup_1 _ _ _ _ Hu Hi). lia.
    + rewrite (get_emb_absent _ _ Hw). done.
Qed.

End QueryFacts.

(** ** The ranking *)

Section RankingFacts.
Context {np : NumPy}.
Hypothesis Hsort : sorts argsort.

Lemma sorts_perm xs : argsort xs ≡ₚ seq 0 (length xs).
Proof. apply Hsort. Qed.

Lemma sorts_sorted xs :
  Sorted (fun i j => F32.le (key xs i) (key xs j) = true) (argsort xs).
Proof. apply Hsort. Qed.

Lemma cosines_length file E q :
  Loaded file E -> length (cosines E q) = length file.
Proof.
  intros HL. unfold cosines.
  by rewrite length_fmap, (loaded_normed _ _ HL), length_fmap, (Loaded_length _ _ HL).
Qed.

Lemma py_slice_prefix {A} (k : Z) (l : list A) : exists n, py_slice k l = take n l.
Proof. unfold py_slice. destruct (0 <=? k)%Z; eauto. Qed.

Lemma py_slice_nonneg {A} (k : Z) (l : list A) :
  (0 <= k)%Z -> py_slice k l = take (Z.to_nat k) l.
Proof. unfold py_slice. intros Hk. by rewrite (proj2 (Z.leb_le 0 k) Hk). Qed.


Lemma elem_of_py_slice {A} (k : Z) (l : list A) x : x ∈ py_slice k l -> x ∈ l.
Proof. destruct (py_slice_prefix k l) as [n ->]. apply subseteq_take. Qed.

Lemma elem_of_argsort xs i : i ∈ argsort xs <-> i < length xs.
Proof. rewrite (sorts_perm xs), elem_of_seq. lia. Qed.

Lemma word_of_loaded file E i :
  Loaded file E -> NoDup (file_words file) -> i < length file ->
  word_of E i = Ok (default EmptyString (file_words file !! i)).
Proof.
  intros HL Hnd Hi. destruct (lookup_lt_is_Some_2 (file_words file) i) as [w Hw].
  { by rewrite file_words_length. }
  unfold word_of. rewrite Hw. cbn.
  assert (inv_index E !! i = Some w) as ->; [|done].
  apply (loaded_inv _ _ HL), (loaded_index _ _ HL). split; [done|].
  intros k Hk Hk'. pose proof (NoDup_lookup _ _ _ _ Hnd Hw Hk'). lia.
Qed.

(** On a file of distinct words, a query vector is ranked against every
    row, and the ranking is read off [argsort] from its far end. *)
Lemma most_similar_ranking file E q v topn :
  Loaded file E -> NoDup (file_words file) -> query_emb E q = Ok (PyArr v) ->
  most_similar E q topn =
    Ok (entry file (cosines E (normalize v))
          <$> py_slice topn (reverse (argsort (cosines E (normalize v))))).
Proof.
  intros HL Hnd Hq. unfold most_similar. rewrite Hq. cbn.
  apply mapM_fmap. intros i Hi.
  apply elem_of_py_slice, elem_of_reverse, elem_of_argsort in Hi.
  rewrite (word_of_loaded file) by (done || by rewrite <- (cosines_length file E (normalize v))).
  cbn. unfold getitem, entry, key.
  destruct (lookup_lt_is_Some_2 _ _ Hi) as [c ->]. done.
Qed.

Lemma vocabulary_size file E :
  Loaded file E -> NoDup (file_words file) -> size (embeddings_index E) = length file.
Proof.
  intros HL Hnd. rewrite <- size_dom, <- file_words_length.
  rewrite <- (size_list_to_set (C := gset string) (file_words file)) by done.
  f_equal. apply set_eq. intros w.
  rewrite elem_of_dom, elem_of_list_to_set, list_elem_of_lookup. split.
  - intros [i Hi]. exists i. by apply (loaded_index _ _ HL) in Hi as [? _].
  - intros [i Hi]. exists i. apply (loaded_index _ _ HL). split; [done|].
    intros k Hk Hk'. pose proof (NoDup_lookup _ _ _ _ Hnd Hi Hk'). lia.
Qed.


Lemma StronglySorted_reverse {A} (R : A -> A -> Prop) l :
  Transitive R -> Sorted R l -> StronglySorted (flip R) (reverse l).
Proof.
  intros HR Hl. apply Sorted_StronglySorted; [|by apply Sorted_reverse].
  intros x y z Hxy Hyz. unfold flip in *. by transitivity y.
Qed.

(** Scores along the reversed [argsort] never increase. *)
Lemma argsort_descending xs :
  StronglySorted (fun i j => F32.le (key xs j) (key xs i) = true) (reverse (argsort xs)).
Proof.
  apply (StronglySorted_reverse (fun i j => F32.le (key xs i) (key xs j) = true)).
  - intros i j k. apply F32Facts.le_trans.
  - apply sorts_sorted.
Qed.

(** [xs[::-1]] turns the order of any two entries around. *)
Lemma reverse_order {A} (l : list A) a b x y :
  a < b -> reverse l !! a = Some x -> reverse l !! b = Some y ->
  exists a' b', b' < a' /\ l !! a' = Some x /\ l !! b' = Some y.
Proof.
  intros Hab Ha Hb.
  pose proof (lookup_lt_Some _ _ _ Hb) as Hlt. rewrite length_reverse in Hlt.
  rewrite reverse_lookup in Ha, Hb by lia.
  exists (length l - S a), (length l - S b). split_and!; [lia | done..].
Qed.


End RankingFacts.

(** ** The cells on the example files *)

Example split_line :
  Text.split "dog 0.9  0.1
" = ["dog"; "0.9"; "0.1"]%string.
Proof. reflexivity. Qed.

(** A no-break space separates tokens as a space does. *)
Example split_no_break_space :
  Text.split ("b 1" +:+ NBSP +:+ "2") = ["b"; "1"; "2"]%string.
Proof. reflexivity. Qed.

Example load_no_break_space :
  glove_embeddings (load_reference ["a 1 2"; "b 1" +:+ NBSP +:+ "2"]%string)
    = [[F32.one; S754_finite false 8388608 (-22)];
       [F32.one; S754_finite false 8388608 (-22)]].
Proof. by vm_compute. Qed.

(** The byte 0xFF is part of no UTF-8 text: [decode] raises. *)
Example load_undecodable :
  load (np := numpy_reference) ["a 1"; String (ascii_of_N 255) " 1"]%string
    = Raise ValueError.
Proof. by vm_compute. Qed.

Example load_file_missing : load_file (np := numpy_reference) ∅ = Raise OSError.
Proof. reflexivity. Qed.

Example load_file_lines :
  load_file (np := numpy_reference)
    {[ glove_file := ("cat 1 0" +:+ LF +:+ "dog 0.9 0.1" +:+ LF +:+ "car 0 1" +:+ LF)%string ]}
    = Ok pets_index.
Proof. by vm_compute. Qed.

Example float32_of_names :
  Text.float32_of_string "-Infinity" = Some (S754_infinity true) /\
  Text.float32_of_string "+NaN" = Some S754_nan /\
  Text.float32_of_string "1_0" = Text.float32_of_string "10" /\
  Text.float32_of_string "1__0" = None.
Proof. split_and!; by vm_compute. Qed.

Example float32_of_tenth :
  Text.float32_of_string "0.1" = Some (S754_finite false 13421773 (-27)).
Proof. by vm_compute. Qed.

Example float32_of_word : Text.float32_of_string "0.1x" = None.
Proof. by vm_compute. Qed.

Example load_pets_rows :
  glove_embeddings pets_index =
    [[F32.one; F32.zero];
     [S754_finite false 15099494 (-24); S754_finite false 13421773 (-27)];
     [F32.zero; F32.one]].
Proof. by vm_compute. Qed.

Example load_blank_line : load (np := numpy_reference) ["a 1"; ""]%string = Raise IndexError.
Proof. by vm_compute. Qed.

Example load_word_for_number :
  load (np := numpy_reference) ["a 1"; "b x"]%string = Raise ValueError.
Proof. by vm_compute. Qed.

Example load_no_line : load (np := numpy_reference) [] = Raise ValueError.
Proof. by vm_compute. Qed.

(** The specification's example: the two nearest words to "cat" are "cat"
    with score 1 and "dog" with score 16674602 / 2^24, about 0.994. *)
Example most_similar_pets :
  most_similar (np := numpy_reference) pets_index (Word "cat") 2
    = Ok [("cat"%string, F32.one); ("dog"%string, S754_finite false 16674602 (-24))].
Proof. by vm_compute. Qed.

Example most_similar_empty_list :
  most_similar (np := numpy_reference) pets_index (Words []) 1 = Raise TypeError /\
  most_similar (np := numpy_reference) pets_index (Words []) 0 = Ok [].
Proof. split; by vm_compute. Qed.

Example most_similar_negative_topn :
  most_similar (np := numpy_reference) pets_index (Word "cat") (-1)
    = Ok [("cat"%string, F32.one); ("dog"%string, S754_finite false 16674602 (-24))].
Proof. by vm_compute. Qed.

(** * The claims *)


Lemma NoDup_by_decide (l : list string) : bool_decide (NoDup l) = true -> NoDup l.
Proof. apply bool_decide_eq_true_1. Qed.

(** ** C1: the order of the ranking *)


(** C1, as stated, fails: in [twins] both words score 1 against "a", and the
    ranking puts "b" (id 1) before "a" (id 0). *)
Lemma most_similar_ties_counterexample :
  load (np := numpy_reference) twins = Ok twins_index /\
  most_similar (np := numpy_reference) twins_index (Word "a") 10
    = Ok [("b"%string, F32.one); ("a"%string, F32.one)] /\
  ~ ties_ascending (embeddings_index twins_index)
      [("b"%string, F32.one); ("a"%string, F32.one)].
Proof.
  split_and!; [by vm_compute..|].
  intros H. specialize (H 0 1 "b"%string "a"%string F32.one 1 0).
  assert (1 < 0) as Habs; [|lia].
  apply H; [lia | by vm_compute..].
Qed.

(** C1 (amended): on an index loaded from a file of distinct words, a query
    of known words ranks all N positions: the ranking is [np.argsort]'s
    output reversed, a permutation of the ids along which the scores never
    increase in the order numpy sorts by (NaN above every number), and the
    answer is its first [topn] entries, a function of the inputs.  Of any
    two rows, tied ones included, the one that comes first in the ranking is
    the one [np.argsort] put later: the ids of tied rows come in no order of
    their own. *)
Theorem most_similar_order {np : NumPy} file E q (topn : Z) :
  sorts argsort ->
  load file = Ok E -> NoDup (file_words file) -> in_vocabulary E q -> (0 <= topn)%Z ->
  exists v,
    let cos := cosines E (normalize v) in
    let idxs := reverse (argsort cos) in
    query_emb E q = Ok (PyArr v) /\
    most_similar E q topn = Ok (take (Z.to_nat topn) (entry file cos <$> idxs)) /\
    idxs ≡ₚ seq 0 (size (embeddings_index E)) /\
    StronglySorted (fun i j => F32.le (key cos j) (key cos i) = true) idxs /\
    (forall a b i j, a < b -> idxs !! a = Some i -> idxs !! b = Some j ->
       exists a' b', b' < a' /\ argsort cos !! a' = Some i /\ argsort cos !! b' = Some j).
Proof.
  intros Hsort Hload Hnd Hq Hk. apply load_Loaded in Hload as HL.
  destruct (query_emb_known _ _ _ HL Hq) as [v Hv].
  exists v. cbn.
  split_and!; [done | | | by apply argsort_descending | apply reverse_order].
  - rewrite (most_similar_ranking Hsort file E q v) by done.
    by rewrite py_slice_nonneg, fmap_take.
  - rewrite reverse_Permutation, (sorts_perm Hsort).
    by rewrite (cosines_length file), (vocabulary_size file).
Qed.

Lemma most_similar_order_witness :
  exists v,
    let cos := cosines (np := numpy_reference) twins_index (normalize (np := numpy_reference) v) in
    let idxs := reverse (argsort (NumPy := numpy_reference) cos) in
    query_emb twins_index (Word "a") = Ok (PyArr v) /\
    most_similar (np := numpy_reference) twins_index (Word "a") 2
      = Ok (take (Z.to_nat 2) (entry twins cos <$> idxs)) /\
    idxs ≡ₚ seq 0 (size (embeddings_index twins_index)) /\
    StronglySorted (fun i j => F32.le (key cos j) (key cos i) = true) idxs /\
    (forall a b i j, a < b -> idxs !! a = Some i -> idxs !! b = Some j ->
       exists a' b', b' < a' /\ argsort (NumPy := numpy_reference) cos !! a' = Some i /\
                     argsort (NumPy := numpy_reference) cos !! b' = Some j).
Proof.
  apply (most_similar_order (np := numpy_reference) twins twins_index (Word "a") 2).
  - exact ReferenceFacts.argsort_sorts.
  - vm_compute. reflexivity.
  - apply NoDup_by_decide. vm_compute. reflexivity.
  - split; [discriminate|]. intros w Hw. apply list_elem_of_singleton in Hw as ->.
    vm_compute. eauto.
  - lia.
Defined.

(** ** C2: unknown words *)

(** C2: on a loaded index, a query that holds a word absent from the
    vocabulary, alone or anywhere in a list, makes [most_similar] raise the
    TypeError of arithmetic on [None] (the specification's UnknownWordError);
    no ranking is returned and the word is not skipped. *)
Theorem most_similar_unknown_word {np : NumPy} file E q (topn : Z) :
  load file = Ok E ->
  (exists w, w ∈ query_words q /\ embeddings_index E !! w = None) ->
  exists e, most_similar E q topn = Raise e /\ UnknownWordError e.
Proof.
  intros Hload Hw. apply load_Loaded in Hload as HL.
  exists TypeError. split; [|done]. unfold most_similar.
  destruct q as [w|ws]; cbn in *.
  - destruct Hw as (w' & Hin & Hw'). apply list_elem_of_singleton in Hin as ->.
    by rewrite (get_emb_absent _ _ Hw').
  - rewrite (sum_loop_unknown file); auto.
Qed.

Lemma most_similar_unknown_word_witness :
  exists e, most_similar (np := numpy_reference) pets_index
              (Words ["cat"; "unknownword"]%string) 10 = Raise e /\
            UnknownWordError e.
Proof.
  apply (most_similar_unknown_word (np := numpy_reference) pets).
  - vm_compute. reflexivity.
  - exists "unknownword"%string. split; [|vm_compute; reflexivity].
    cbn. apply elem_of_cons. right. apply elem_of_cons. by left.
Defined.

(** ** C3: the norm of the query vector *)


(** C3, as stated, fails: the vector of "z" has norm exactly zero, and the
    call returns a ranking (with a NaN score) instead of raising. *)
Lemma most_similar_zero_norm_counterexample :
  load (np := numpy_reference) origin = Ok origin_index /\
  query_emb origin_index (Word "z")
    = Ok (PyArr [F32.zero; F32.zero]) /\
  norm (NumPy := numpy_reference) [F32.zero; F32.zero] = F32.zero /\
  most_similar (np := numpy_reference) origin_index (Word "z") 10
    = Ok [("z"%string, F32.nan)] /\
  ~ exists e, most_similar (np := numpy_reference) origin_index (Word "z") 10 = Raise e /\
              DegenerateVectorError e.
Proof.
  split_and!; [by vm_compute..|]. intros (e & He & _). vm_compute in He. discriminate.
Qed.

Section Raises.
Context {np : NumPy}.

Lemma getitem_Raise {A} (xs : list A) i e : getitem xs i = Raise e -> e = IndexError.
Proof. unfold getitem. destruct (xs !! i); [discriminate | by intros [= <-]]. Qed.

Lemma get_emb_Raise E w e : get_emb E w = Raise e -> e = IndexError.
Proof.
  unfold get_emb. destruct (embeddings_index E !! w); [|discriminate].
  intros H. apply bind_Raise in H as [H|(? & _ & [=])]. by eapply getitem_Raise.
Qed.

Lemma iadd_Raise acc o e : iadd acc o = Raise e -> e = TypeError \/ e = ValueError.
Proof.
  unfold iadd. destruct o as [v|], acc as [| |u]; try case_decide;
    intros [= <-]; auto.
Qed.

Lemma sum_loop_Raise E ws acc e :
  sum_loop E ws acc = Raise e -> e <> ZeroDivisionError.
Proof.
  revert acc. induction ws as [|w ws IH]; intros acc; cbn; [discriminate|].
  intros H. apply bind_Raise in H as [H|(o & _ & H)].
  { apply get_emb_Raise in H as ->. discriminate. }
  apply bind_Raise in H as [H|(acc' & _ & H)]; [|by eapply IH].
  apply iadd_Raise in H as [-> | ->]; discriminate.
Qed.

(** No run of [most_similar] ends in a division error. *)
Lemma most_similar_Raise E q topn e :
  most_similar E q topn = Raise e -> e <> ZeroDivisionError.
Proof.
  unfold most_similar. intros H. apply bind_Raise in H as [H|(o & _ & H)].
  - destruct q as [w|ws]; cbn in H.
    + apply bind_Raise in H as [H|(? & _ & [=])].
      apply get_emb_Raise in H as ->. discriminate.
    + by eapply sum_loop_Raise.
  - destruct o as [| |v].
    + by injection H as <-.
    + destruct (py_slice _ _); [discriminate | by injection H as <-].
    + apply mapM_Raise in H as (i & _ & H).
      unfold word_of in H. destruct (inv_index E !! i); cbn in H.
      * apply bind_Raise in H as [H|(? & _ & [=])].
        apply getitem_Raise in H as ->. discriminate.
      * by injection H as <-.
Qed.

End Raises.

(** C3 (amended): the division by the norm is not guarded.  A query of known
    words on an index loaded from a file of distinct words returns a ranking
    whatever the norm of its vector, zero included (the quotients are then
    NaN or infinite), and no call of [most_similar], on any index and any
    query, raises DegenerateVectorError. *)
Theorem most_similar_norm_unguarded {np : NumPy} file E q (topn : Z) :
  sorts argsort ->
  load file = Ok E -> NoDup (file_words file) -> in_vocabulary E q ->
  (exists v, query_emb E q = Ok (PyArr v) /\
     most_similar E q topn =
       Ok (entry file (cosines E ((fun x => F32.div x (norm v)) <$> v))
             <$> py_slice topn (reverse (argsort
                   (cosines E ((fun x => F32.div x (norm v)) <$> v)))))) /\
  (forall E' q' topn' e,
     most_similar E' q' topn' = Raise e -> ~ DegenerateVectorError e).
Proof.
  intros Hsort Hload Hnd Hq. apply load_Loaded in Hload as HL. split.
  - destruct (query_emb_known _ _ _ HL Hq) as [v Hv]. exists v. split; [done|].
    by apply most_similar_ranking.
  - intros E' q' topn' e. apply most_similar_Raise.
Qed.

Lemma most_similar_norm_unguarded_witness :
  (exists v, query_emb origin_index (Word "z") = Ok (PyArr v) /\
     most_similar (np := numpy_reference) origin_index (Word "z") 10 =
       Ok (entry origin
             (cosines (np := numpy_reference) origin_index
                ((fun x => F32.div x (norm (NumPy := numpy_reference) v)) <$> v))
             <$> py_slice 10 (reverse (argsort (NumPy := numpy_reference)
                   (cosines (np := numpy_reference) origin_index
                      ((fun x => F32.div x (norm (NumPy := numpy_reference) v)) <$> v)))))) /\
  (forall E' q' topn' e,
     most_similar (np := numpy_reference) E' q' topn' = Raise e ->
     ~ DegenerateVectorError e).
Proof.
  apply (most_similar_norm_unguarded (np := numpy_reference) origin origin_index).
  - exact ReferenceFacts.argsort_sorts.
  - vm_compute. reflexivity.
  - apply NoDup_by_decide. vm_compute. reflexivity.
  - split; [discriminate|]. intros w Hw. apply list_elem_of_singleton in Hw as ->.
    vm_compute. eauto.
Defined.

(** ** C4: the ids after a load *)


(** C4 at a file with a repeated word: the load succeeds, each line took the
    next id whether or not its word was new, "a" ends with id 2 and "b" with
    id 1, and no word has id 0: the two words are not mapped onto [0, 2). *)
Theorem load_repeated_word :
  load (np := numpy_reference) repeated = Ok repeated_index /\
  embeddings_index repeated_index = {[ "a"%string := 2; "b"%string := 1 ]} /\
  inv_index repeated_index = {[ 2 := "a"%string; 1 := "b"%string ]} /\
  length (glove_embeddings repeated_index) = 3 /\
  size (embeddings_index repeated_index) = 2 /\
  (forall w, embeddings_index repeated_index !! w <> Some 0) /\
  most_similar (np := numpy_reference) repeated_index (Word "b") 3 = Raise KeyError.
Proof.
  assert (embeddings_index repeated_index = {[ "a"%string := 2; "b"%string := 1 ]}) as Hidx
    by (by vm_compute).
  split_and!; [by vm_compute | exact Hidx | by vm_compute.. | | by vm_compute].
  intros w. rewrite Hidx. intros Hw.
  apply lookup_insert_Some in Hw as [[_ [=]]|[_ Hw]].
  apply lookup_singleton_Some in Hw as [_ [=]].
Qed.

(** With pairwise distinct words the ids are the line numbers: the word of
    line [i] has id [i], the ids fill [0, N), and N words are known. *)
Lemma load_distinct_words {np : NumPy} file E :
  load file = Ok E -> NoDup (file_words file) ->
  size (embeddings_index E) = length file /\
  (forall w i, embeddings_index E !! w = Some i <-> file_words file !! i = Some w) /\
  (forall i, i < length file -> exists w, embeddings_index E !! w = Some i).
Proof.
  intros Hload Hnd. apply load_Loaded in Hload as HL.
  assert (forall w i, embeddings_index E !! w = Some i <-> file_words file !! i = Some w) as Hi.
  { intros w i. rewrite (loaded_index _ _ HL). split; [by intros [? _]|].
    intros Hw. split; [done|]. intros k Hk Hk'.
    pose proof (NoDup_lookup _ _ _ _ Hnd Hw Hk'). lia. }
  split_and!; [by apply vocabulary_size | done |].
  intros i Hlt. destruct (lookup_lt_is_Some_2 (file_words file) i) as [w Hw].
  { by rewrite file_words_length. }
  exists w. by apply Hi.
Qed.

(** ** C5: malformed files *)

(** C5: a file in which some vector token is no number, or in which two
    lines differ in their count of tokens, does not load: the cells raise
    ValueError or IndexError (the specification's ParseError) and leave no
    index. *)
Theorem load_malformed {np : NumPy} file :
  (exists line word values tok,
     line ∈ file /\ Text.split line = word :: values /\
     tok ∈ values /\ asfloat32 tok = None) \/
  (exists line1 line2,
     line1 ∈ file /\ line2 ∈ file /\
     length (Text.split line1) <> length (Text.split line2)) ->
  exists e, load file = Raise e /\ ParseError e.
Proof.
  intros Hbad. destruct (load file) as [E|e] eqn:Hload.
  2: { exists e. split; [done|]. by eapply load_Raise. }
  exfalso. apply load_Loaded in Hload as HL.
  pose proof (loaded_rows _ _ HL) as Hrows.
  destruct (loaded_dim _ _ HL) as [d Hd].
  assert (forall line, line ∈ file ->
            exists word values row, Text.split line = word :: values /\
              Forall2 (fun tok x => asfloat32 tok = Some x) values row /\
              length row = d) as Hline.
  { intros line Hin. apply list_elem_of_lookup in Hin as [k Hk].
    destruct (Forall2_lookup_l _ _ _ _ _ Hrows Hk) as (row & Hrow & word & _ & values & Hs & Ha).
    exists word, values, row. split_and!; [done | by apply asarray_Ok |].
    by eapply (Forall_lookup_1 _ _ _ _ Hd). }
  destruct Hbad as [(line & word & values & tok & Hin & Hs & Htok & Hnone)
                   |(line1 & line2 & Hin1 & Hin2 & Hne)].
  - destruct (Hline _ Hin) as (word' & values' & row & Hs' & Hall & _).
    rewrite Hs in Hs'. injection Hs' as <- <-.
    apply list_elem_of_lookup in Htok as [k Hk].
    destruct (Forall2_lookup_l _ _ _ _ _ Hall Hk) as (x & _ & Hx). congruence.
  - destruct (Hline _ Hin1) as (w1 & vs1 & r1 & Hs1 & Ha1 & Hd1).
    destruct (Hline _ Hin2) as (w2 & vs2 & r2 & Hs2 & Ha2 & Hd2).
    apply Forall2_length in Ha1, Ha2. rewrite Hs1, Hs2 in Hne. cbn in Hne. lia.
Qed.

Lemma load_malformed_witness :
  exists e, load (np := numpy_reference) ["a 1"; "b 2 3"]%string = Raise e /\ ParseError e.
Proof.
  apply (load_malformed (np := numpy_reference)). right.
  exists "a 1"%string, "b 2 3"%string. split_and!.
  - apply elem_of_cons. by left.
  - apply elem_of_cons. right. apply elem_of_cons. by left.
  - vm_compute. lia.
Defined.

(** ** C6: the top of the ranking *)






(** ** C7: the query vector of a list of words *)

(** C7, as stated, fails: for the list ["cat", "cat"] the vector before
    normalisation is (2, 0), the sum, and not the average (1, 0). *)
Lemma query_emb_average_counterexample :
  load (np := numpy_reference) pets = Ok pets_index /\
  get_emb pets_index "cat"%string = Ok (Some [F32.one; F32.zero]) /\
  query_emb pets_index (Words ["cat"; "cat"]%string)
    = Ok (PyArr [F32.of_Z 2; F32.zero]) /\
  spec_average 2 [[F32.one; F32.zero]; [F32.one; F32.zero]] = [F32.one; F32.zero] /\
  query_emb pets_index (Words ["cat"; "cat"]%string)
    <> Ok (PyArr (spec_average 2 [[F32.one; F32.zero]; [F32.one; F32.zero]])).
Proof. split_and!; by vm_compute. Qed.

(** C7 (amended): for a list of one or more known words the query vector
    before normalisation is the elementwise sum of their raw vectors, added
    in list order onto zeros; it is not divided by the number of words. *)
Theorem query_emb_sum {np : NumPy} file E ws vs :
  load file = Ok E -> ws <> [] ->
  Forall2 (fun w v => get_emb E w = Ok (Some v)) ws vs ->
  exists d, Forall (fun row => length row = d) (glove_embeddings E) /\
    query_emb E (Words ws) = Ok (PyArr (elementwise_sum d vs)).
Proof.
  intros Hload Hne Hvs. apply load_Loaded in Hload as HL.
  destruct (get_emb_dim _ _ HL) as (d & Hrows & Hd). exists d. split; [done|].
  apply query_emb_words; [done..|].
  apply Forall_forall. intros v Hv. apply list_elem_of_lookup in Hv as [k Hk].
  destruct (Forall2_lookup_r _ _ _ _ _ Hvs Hk) as (w & _ & Hw). eauto.
Qed.

Lemma query_emb_sum_witness :
  exists d, Forall (fun row => length row = d) (glove_embeddings pets_index) /\
    query_emb pets_index (Words ["cat"; "car"]%string)
      = Ok (PyArr (elementwise_sum d [[F32.one; F32.zero]; [F32.zero; F32.one]])).
Proof.
  apply (query_emb_sum (np := numpy_reference) pets).
  - vm_compute. reflexivity.
  - discriminate.
  - repeat constructor; vm_compute; reflexivity.
Defined.

(** ** C8: a word averaged with itself *)


(** C8, as stated, fails: the sum of the vector of "w" with itself overflows
    to infinity, whose quotient by its norm is NaN, while the vector alone
    divided by its (infinite) norm is zero: the two calls return different
    scores. *)
Lemma most_similar_twice_counterexample :
  load (np := numpy_reference) huge = Ok huge_index /\
  most_similar (np := numpy_reference) huge_index (Word "w") 10
    = Ok [("w"%string, F32.zero)] /\
  most_similar (np := numpy_reference) huge_index (Words ["w"; "w"]%string) 10
    = Ok [("w"%string, F32.nan)] /\
  most_similar (np := numpy_reference) huge_index (Words ["w"; "w"]%string) 10
    <> most_similar (np := numpy_reference) huge_index (Word "w") 10.
Proof. split_and!; by vm_compute. Qed.

(** The query vector of [[w, w]] and the one of [w] have one quotient by
    their norms. *)
Lemma normalize_double {np : NumPy} v :
  doubles norm -> Forall (fun x => F32.moderate x = true) v -> length v <= 100 ->
  normalize (zip_with F32.add (F32.add F32.zero <$> v) v) = normalize v.
Proof.
  intros Hnorm Hv Hlen.
  assert (forall u, Forall (fun x => F32.moderate x = true) u ->
            F32.add F32.zero <$> u = u) as Hzero.
  { intros u Hu. induction Hu as [|x u Hx _ IH]; [done|].
    rewrite fmap_cons, IH. f_equal. by apply F32Scaling.add_zero_moderate. }
  rewrite Hzero by done.
  rewrite zip_with_diag. destruct (Hnorm v Hv Hlen) as [Hn Hd].
  unfold normalize. rewrite Hd, <- list_fmap_compose.
  apply Forall_fmap_ext. eapply Forall_impl; [exact Hv|]. intros x Hx. cbn.
  rewrite (F32Scaling.add_diag_scale x) by (by apply F32Scaling.moderate_normal).
  rewrite (F32Scaling.add_diag_scale (norm v)) by done.
  apply F32Scaling.div_scale.
Qed.

(** C8 (amended): for a known word [w] whose vector has at most a hundred
    components of moderate size (each is [+0.0] or a normal number of
    absolute value from 2^-40 up to 2^12), the calls on [[w, w]] and on [w]
    return the same pairs for every [topn], under every [np.linalg.norm] that
    [doubles]: [v + v] is exact, its norm is twice the norm of [v], and the
    two quotients agree. *)
Theorem most_similar_twice {np : NumPy} E w v (topn : Z) :
  doubles norm ->
  get_emb E w = Ok (Some v) ->
  Forall (fun x => F32.moderate x = true) v -> length v <= 100 ->
  most_similar E (Words [w; w]) topn = most_similar E (Word w) topn.
Proof.
  intros Hnorm Hv Hmod Hlen. unfold most_similar. cbn. rewrite Hv. cbn.
  rewrite decide_True by (by rewrite length_fmap). cbn.
  by rewrite normalize_double.
Qed.

Lemma most_similar_twice_witness :
  most_similar (np := numpy_reference) pets_index (Words ["dog"; "dog"]%string) 3
    = most_similar (np := numpy_reference) pets_index (Word "dog") 3.
Proof.
  apply (most_similar_twice (np := numpy_reference) pets_index "dog"%string
           [S754_finite false 15099494 (-24); S754_finite false 13421773 (-27)]).
  - exact ReferenceFacts.norm_doubles.
  - vm_compute. reflexivity.
  - repeat constructor.
  - cbn. lia.
Defined.

(** ** C9: the normed lookup *)


(** C9, as stated, fails in its last part: the norm of the raw vector of
    "big" is not zero (it is infinite), and the normed vector is (0), whose
    norm is 0 and not 1. *)
Lemma normed_lookup_counterexample :
  load (np := numpy_reference) big = Ok big_index /\
  (exists v u,
     get_emb big_index "big"%string = Ok (Some v) /\
     get_normed_emb big_index "big"%string = Ok (Some u) /\
     norm (NumPy := numpy_reference) v = S754_infinity false /\
     SFeqb (norm (NumPy := numpy_reference) v) F32.zero = false /\
     norm (NumPy := numpy_reference) u = F32.zero /\
     SFeqb (norm (NumPy := numpy_reference) u) F32.one = false).
Proof.
  split; [by vm_compute|].
  exists [S754_finite false 13234890 76], [F32.zero]. split_and!; by vm_compute.
Qed.

(** C9 (amended): on a loaded index, [get_normed_emb(w)] is absent exactly
    when [get_emb(w)] is, and when [get_emb(w)] is the vector [v] then
    [get_normed_emb(w)] is [v] divided, component by component, by the norm
    numpy computed for it. *)
Theorem normed_lookup {np : NumPy} file E w :
  load file = Ok E ->
  (get_normed_emb E w = Ok None <-> get_emb E w = Ok None) /\
  (forall v, get_emb E w = Ok (Some v) ->
     get_normed_emb E w = Ok (Some ((fun x => F32.div x (norm v)) <$> v))).
Proof.
  intros Hload. apply load_Loaded in Hload as HL.
  destruct (embeddings_index E !! w) as [i|] eqn:Hw.
  - destruct (get_emb_present _ _ _ _ HL Hw) as (v & _ & Hv & Hn).
    rewrite Hv, Hn. split; [done|]. by intros v' [= <-].
  - unfold get_emb, get_normed_emb. rewrite Hw. done.
Qed.

Lemma normed_lookup_witness :
  (get_normed_emb pets_index "dog"%string = Ok None <->
   get_emb pets_index "dog"%string = Ok None) /\
  (forall v, get_emb pets_index "dog"%string = Ok (Some v) ->
     get_normed_emb pets_index "dog"%string
       = Ok (Some ((fun x => F32.div x (norm (NumPy := numpy_reference) v)) <$> v))).
Proof.
  apply (normed_lookup (np := numpy_reference) pets pets_index "dog"%string).
  vm_compute. reflexivity.
Defined.

(** ** C10: [topn = 0] and the length of the answer *)




(** * More of the notebook *)

(** ** Loading: when it succeeds and what the lookups return *)

Section LoadMore.
Context {np : NumPy}.

Lemma asarray_total values :
  (forall tok, tok ∈ values -> is_Some (asfloat32 tok)) ->
  exists row, asarray values = Ok row.
Proof.
  unfold asarray. induction values as [|tok values IH]; intros Hall; cbn; [eauto|].
  destruct (Hall tok) as [x ->]; [left|]. cbn.
  destruct IH as [row ->]; [intros; apply Hall; by right|]. cbn. eauto.
Qed.

Lemma load_loop_total lines st :
  (forall line, line ∈ lines -> Text.decodes line = true /\ exists word values,
     Text.split line = word :: values /\
     forall tok, tok ∈ values -> is_Some (asfloat32 tok)) ->
  exists st', load_loop lines st = Ok st'.
Proof.
  revert st. induction lines as [|line lines IH]; intros st Hall; cbn; [eauto|].
  destruct (Hall line) as (Hdec & word & values & Hs & Htok); [left|].
  destruct st as [[index vectors] n]. unfold loop_body. rewrite Hdec, Hs.
  destruct (asarray_total values Htok) as [row ->]. cbn.
  apply IH. intros; apply Hall; by right.
Qed.

Lemma parses_length line word row :
  parses line word row -> S (length row) = length (Text.split line).
Proof.
  intros (_ & values & Hs & Ha). apply asarray_Ok, Forall2_length in Ha.
  rewrite Hs. cbn. lia.
Qed.

Lemma last_occurrence (w : string) (l : list string) :
  w ∈ l -> exists i, l !! i = Some w /\ forall k, i < k -> l !! k <> Some w.
Proof.
  induction l as [|x l IH]; intros Hin; [by apply elem_of_nil in Hin|].
  destruct (decide (w ∈ l)) as [Hl|Hl].
  - destruct (IH Hl) as (i & Hi & Hlast). exists (S i). split; [done|].
    intros [|k] Hk; [lia|]. cbn. apply Hlast. lia.
  - apply elem_of_cons in Hin as [->|Hin]; [|done]. exists 0. split; [done|].
    intros [|k] Hk; [lia|]. cbn. intros Hk'. apply Hl. by eapply list_elem_of_lookup_2.
Qed.

Lemma Loaded_known file E w :
  Loaded file E -> is_Some (embeddings_index E !! w) <-> w ∈ file_words file.
Proof.
  intros HL. split.
  - intros [i Hi]. apply (loaded_index _ _ HL) in Hi as [Hi _].
    by eapply list_elem_of_lookup_2.
  - intros Hin. destruct (last_occurrence _ _ Hin) as (i & Hi & Hlast).
    exists i. by apply (loaded_index _ _ HL).
Qed.

End LoadMore.

(** X1: after any successful load, also on a file that repeats words,
    [inv_index] and [embeddings_index] are inverse to each other: an id names
    a word exactly when the word has that id. *)
Theorem load_index_inverse {np : NumPy} file E i w :
  load file = Ok E ->
  (inv_index E !! i = Some w <-> embeddings_index E !! w = Some i).
Proof. intros Hload. apply load_Loaded in Hload as HL. apply (loaded_inv _ _ HL). Qed.

Lemma load_index_inverse_witness :
  (inv_index repeated_index !! 2 = Some "a"%string <->
   embeddings_index repeated_index !! "a"%string = Some 2).
Proof.
  apply (load_index_inverse (np := numpy_reference) repeated repeated_index).
  vm_compute. reflexivity.
Defined.

Lemma load_well_formed {np : NumPy} file :
  (exists E, load file = Ok E) <-> well_formed file.
Proof.
  split.
  - intros [E Hload]. apply load_Loaded in Hload as HL.
    split; [apply (loaded_nonempty _ _ HL)|].
    destruct (loaded_dim _ _ HL) as [d Hd]. exists d. intros line Hin.
    apply list_elem_of_lookup in Hin as [k Hk].
    destruct (Forall2_lookup_l _ _ _ _ _ (loaded_rows _ _ HL) Hk)
      as (row & Hrow & word & Hdec & values & Hs & Ha).
    split; [done|].
    exists word, values. apply asarray_Ok in Ha. split_and!; [done | |].
    + rewrite (Forall2_length _ _ _ Ha). by eapply (Forall_lookup_1 _ _ _ _ Hd).
    + intros tok Htok. apply list_elem_of_lookup in Htok as [j Hj].
      destruct (Forall2_lookup_l _ _ _ _ _ Ha Hj) as (x & _ & ->). eauto.
  - intros [Hne (d & Hd)].
    destruct (load_loop_total file (∅, [], 0)) as [[[index vectors] n] Hloop].
    { intros line Hin. destruct (Hd line Hin) as (Hdec & word & values & Hs & _ & Htok).
      eauto. }
    pose proof (load_loop_spec _ _ _ _ Hloop) as (_ & Hrows & _).
    unfold load. rewrite Hloop. cbn.
    assert (Forall (fun row => length row = d) vectors) as Hdim.
    { apply Forall_lookup. intros k row Hk.
      destruct (Forall2_lookup_r _ _ _ _ _ Hrows Hk) as (line & Hline & word & Hp).
      destruct (Hd line) as (_ & word' & values & Hs & Hlen & _).
      { by eapply list_elem_of_lookup_2. }
      apply parses_length in Hp. rewrite Hs in Hp. cbn in Hp. lia. }
    unfold vstack. destruct vectors as [|v vs].
    { apply Forall2_nil_inv_r in Hrows. done. }
    apply Forall_cons in Hdim as [Hv Hvs].
    replace (forallb _ vs) with true; [cbn; eauto|].
    symmetry. apply forallb_forall. intros u Hu. apply Nat.eqb_eq.
    apply list_elem_of_In in Hu. rewrite Hv. by apply (proj1 (Forall_forall _ _) Hvs).
Qed.

(** X2: the loading cells succeed exactly when the file is there and is well
    formed: at least one line, and every line is UTF-8 text whose tokens, as
    [str.split()] cuts them at any Unicode white space, are a word followed
    by one and the same number of numeric tokens. *)
Theorem load_succeeds_iff {np : NumPy} files :
  (exists E, load_file files = Ok E) <->
  exists bytes, files !! glove_file = Some bytes /\ well_formed (Text.lines bytes).
Proof.
  unfold load_file, open. destruct (files !! glove_file) as [bytes|]; cbn.
  - rewrite load_well_formed. split; [by exists bytes|].
    by intros (? & [= <-] & ?).
  - split; [by intros [? ?] | by intros (? & ? & _)].
Qed.

(** X3: on a loaded index, [get_emb(w)] is the row parsed from the last line
    that names [w], and [get_normed_emb(w)] is that row divided by its norm:
    an earlier line with the same word is never returned. *)
Theorem get_emb_last_line {np : NumPy} file E i line w values :
  load file = Ok E ->
  file !! i = Some line -> Text.split line = w :: values ->
  (forall k, i < k -> file_words file !! k <> Some w) ->
  exists row,
    asarray values = Ok row /\
    get_emb E w = Ok (Some row) /\
    get_normed_emb E w = Ok (Some (normalize row)).
Proof.
  intros Hload Hi Hs Hlast. apply load_Loaded in Hload as HL.
  destruct (Forall2_lookup_l _ _ _ _ _ (loaded_rows _ _ HL) Hi)
    as (row & Hrow & word & _ & values' & Hs' & Ha).
  rewrite Hs in Hs'. injection Hs' as <- <-. exists row. split; [done|].
  assert (embeddings_index E !! w = Some i) as Hw.
  { apply (loaded_index _ _ HL). split; [|done].
    unfold file_words. rewrite list_lookup_fmap, Hi. cbn. by rewrite Hs. }
  destruct (get_emb_present _ _ _ _ HL Hw) as (v & Hv & Hg & Hn).
  by replace row with v by congruence.
Qed.

Lemma get_emb_last_line_witness :
  exists row,
    asarray (np := numpy_reference) ["3"%string] = Ok row /\
    get_emb repeated_index "a"%string = Ok (Some row) /\
    get_normed_emb repeated_index "a"%string
      = Ok (Some (normalize (np := numpy_reference) row)).
Proof.
  apply (get_emb_last_line (np := numpy_reference) repeated repeated_index 2 "a 3"%string).
  - vm_compute. reflexivity.
  - reflexivity.
  - reflexivity.
  - intros [|[|[|k]]] Hk; try lia; vm_compute; discriminate.
Defined.

(** X4: on a loaded index, [get_emb(w)] is [None] exactly for the words that
    start no line of the file; matching is exact, on the whole first token. *)
Theorem get_emb_None_iff {np : NumPy} file E w :
  load file = Ok E ->
  (get_emb E w = Ok None <-> w ∉ file_words file).
Proof.
  intros Hload. apply load_Loaded in Hload as HL.
  rewrite <- (Loaded_known _ _ w HL). split.
  - intros Hnone [i Hi].
    destruct (get_emb_present _ _ _ _ HL Hi) as (v & _ & Hv & _). congruence.
  - intros Hno. apply get_emb_absent.
    destruct (embeddings_index E !! w) eqn:Hw; [|done]. destruct Hno. eauto.
Qed.

Lemma get_emb_None_iff_witness :
  (get_emb pets_index "Cat"%string = Ok None <-> "Cat"%string ∉ file_words pets).
Proof.
  apply (get_emb_None_iff (np := numpy_reference) pets pets_index).
  vm_compute. reflexivity.
Defined.

(** X5: all vectors a loaded index returns have one dimension [d], the
    number of tokens after the word on a line, and the normed vector of a
    word has the dimension of its raw vector. *)
Theorem lookup_dimension {np : NumPy} file E :
  load file = Ok E ->
  exists d,
    (forall line, line ∈ file -> length (Text.split line) = S d) /\
    (forall w v, get_emb E w = Ok (Some v) -> length v = d) /\
    (forall w u, get_normed_emb E w = Ok (Some u) -> length u = d).
Proof.
  intros Hload. apply load_Loaded in Hload as HL.
  destruct (get_emb_dim _ _ HL) as (d & Hrows & Hd). exists d. split_and!.
  - intros line Hin. apply list_elem_of_lookup in Hin as [k Hk].
    destruct (Forall2_lookup_l _ _ _ _ _ (loaded_rows _ _ HL) Hk) as (row & Hrow & word & Hp).
    rewrite <- (parses_length _ _ _ Hp). f_equal.
    by eapply (Forall_lookup_1 _ _ _ _ Hrows).
  - done.
  - intros w u Hu. destruct (embeddings_index E !! w) as [i|] eqn:Hw.
    + destruct (get_emb_present _ _ _ _ HL Hw) as (v & _ & Hv & Hn).
      rewrite Hn in Hu. injection Hu as <-. unfold normalize.
      rewrite length_fmap. by eapply Hd.
    + unfold get_normed_emb in Hu. rewrite Hw in Hu. discriminate.
Qed.

Lemma lookup_dimension_witness :
  exists d,
    (forall line, line ∈ pets -> length (Text.split line) = S d) /\
    (forall w v, get_emb pets_index w = Ok (Some v) -> length v = d) /\
    (forall w u, get_normed_emb pets_index w = Ok (Some u) -> length u = d).
Proof.
  apply (lookup_dimension (np := numpy_reference) pets pets_index).
  vm_compute. reflexivity.
Defined.

(** ** More on [most_similar] *)

Section RankingMore.
Context {np : NumPy}.

Lemma py_slice_fmap {A B} (f : A -> B) (k : Z) (l : list A) :
  py_slice k (f <$> l) = f <$> py_slice k l.
Proof. unfold py_slice. rewrite length_fmap. by destruct (0 <=? k)%Z; rewrite fmap_take. Qed.

Lemma py_slice_all {A} (l : list A) : py_slice (Z.of_nat (length l)) l = l.
Proof. rewrite py_slice_nonneg by lia. rewrite Nat2Z.id. by apply take_ge. Qed.

Lemma py_slice_NoDup {A} (k : Z) (l : list A) : NoDup l -> NoDup (py_slice k l).
Proof.
  destruct (py_slice_prefix k l) as [n ->]. intros Hl.
  exact (sublist_NoDup _ _ Hl (sublist_take l n)).
Qed.

(** The first element that fails decides the exception of [mapM]. *)
Lemma mapM_fails {A B} (f : A -> result B) l a e :
  a ∈ l -> f a = Raise e ->
  (forall a' e', a' ∈ l -> f a' = Raise e' -> e' = e) ->
  mapM f l = Raise e.
Proof.
  induction l as [|x l IH]; intros Hin Ha Hall; [by apply elem_of_nil in Hin|].
  cbn. destruct (f x) as [b|e'] eqn:Hx; cbn.
  - apply elem_of_cons in Hin as [->|Hin]; [congruence|].
    rewrite IH; [done..|]. intros a' e' Ha'. apply Hall. by right.
  - f_equal. apply (Hall x); [left | done].
Qed.

Lemma add_zero_l (x : float32) : x <> S754_zero true -> F32.add F32.zero x = x.
Proof. intros Hx. destruct x as [[]|?| |? ? ?]; try reflexivity. by destruct Hx. Qed.

Lemma fmap_add_zero (v : list float32) :
  Forall (fun x => x <> S754_zero true) v -> F32.add F32.zero <$> v = v.
Proof.
  induction 1 as [|x v Hx Hnz IH]; [done|]. rewrite fmap_cons.
  f_equal; [by apply add_zero_l | done].
Qed.

End RankingMore.

(** X6: a query that is the empty list.  On a loaded index it raises
    TypeError for every [topn] that selects at least one row, and returns the
    empty list for [topn = 0] and for [topn <= -N]. *)
Theorem most_similar_empty_list_query {np : NumPy} file E (topn : Z) :
  load file = Ok E ->
  most_similar E (Words []) topn =
    if decide (topn = 0 \/ topn + Z.of_nat (length file) <= 0)%Z then Ok []
    else Raise TypeError.
Proof.
  intros Hload. apply load_Loaded in Hload as HL.
  unfold most_similar. cbn.
  assert (length (reverse (glove_embeddings_normed E)) = length file) as Hlen.
  { by rewrite length_reverse, (loaded_normed _ _ HL), length_fmap, (Loaded_length _ _ HL). }
  assert (length file <> 0) as Hne.
  { pose proof (loaded_nonempty _ _ HL). by destruct file. }
  destruct (py_slice topn _) as [|x l] eqn:Hs.
  - rewrite decide_True; [done|]. unfold py_slice in Hs.
    destruct (0 <=? topn)%Z eqn:Hk; apply take_nil_inv in Hs as [Hs|Hs];
      try (rewrite Hs in Hlen; cbn in Hlen; lia).
    + apply Z.leb_le in Hk. lia.
    + apply Z.leb_gt in Hk. lia.
  - rewrite decide_False; [done|]. intros Hk.
    assert (py_slice topn (reverse (glove_embeddings_normed E)) = []) as Hnil.
    { unfold py_slice. destruct Hk as [->|Hk]; [done|].
      destruct (0 <=? topn)%Z eqn:Hk'.
      - apply Z.leb_le in Hk'. replace (Z.to_nat topn) with 0 by lia. done.
      - replace (Z.to_nat _) with 0 by lia. done. }
    congruence.
Qed.

Lemma most_similar_empty_list_query_witness :
  most_similar (np := numpy_reference) pets_index (Words []) (-2) =
    if decide ((-2) = 0 \/ (-2) + Z.of_nat (length pets) <= 0)%Z then Ok []
    else Raise TypeError.
Proof.
  apply (most_similar_empty_list_query (np := numpy_reference) pets pets_index (-2)).
  vm_compute. reflexivity.
Defined.

(** X7: [topn] only cuts the ranking.  For a query of known words on an
    index loaded from distinct words there is one full ranking of N pairs,
    the answer for [topn = N], and the answer for any [topn] is the Python
    slice [full[:topn]] of it: its first [topn] pairs, or for a negative
    [topn] all but its last [-topn]. *)
Theorem most_similar_topn_slice {np : NumPy} file E q :
  sorts argsort ->
  load file = Ok E -> NoDup (file_words file) -> in_vocabulary E q ->
  exists full,
    most_similar E q (Z.of_nat (length file)) = Ok full /\
    length full = length file /\
    forall topn, most_similar E q topn = Ok (py_slice topn full).
Proof.
  intros Hsort Hload Hnd Hq. apply load_Loaded in Hload as HL.
  destruct (query_emb_known _ _ _ HL Hq) as [v Hv].
  set (cos := cosines E (normalize v)).
  assert (length (reverse (argsort cos)) = length file) as Hlen.
  { rewrite length_reverse, (Permutation_length (sorts_perm Hsort cos)), length_seq.
    apply (cosines_length _ _ _ HL). }
  exists (entry file cos <$> reverse (argsort cos)). split_and!.
  - rewrite (most_similar_ranking Hsort file E q v) by done.
    fold cos. by rewrite <- Hlen, py_slice_all.
  - by rewrite length_fmap.
  - intros topn. rewrite (most_similar_ranking Hsort file E q v) by done.
    by rewrite py_slice_fmap.
Qed.

Lemma most_similar_topn_slice_witness :
  exists full,
    most_similar (np := numpy_reference) pets_index (Words ["cat"; "car"]%string)
      (Z.of_nat (length pets)) = Ok full /\
    length full = length pets /\
    forall topn,
      most_similar (np := numpy_reference) pets_index (Words ["cat"; "car"]%string) topn
        = Ok (py_slice topn full).
Proof.
  apply (most_similar_topn_slice (np := numpy_reference) pets pets_index).
  - exact ReferenceFacts.argsort_sorts.
  - vm_compute. reflexivity.
  - apply NoDup_by_decide. vm_compute. reflexivity.
  - split; [discriminate|]. intros w Hw.
    apply elem_of_cons in Hw as [->|Hw]; [vm_compute; eauto|].
    apply list_elem_of_singleton in Hw as ->. vm_compute. eauto.
Defined.

(** X8: on an index loaded from distinct words, the words of an answer are
    pairwise distinct and are all words of the file: no word is returned
    twice. *)
Theorem most_similar_words_distinct {np : NumPy} file E q (topn : Z) r :
  sorts argsort ->
  load file = Ok E -> NoDup (file_words file) -> in_vocabulary E q ->
  most_similar E q topn = Ok r ->
  NoDup r.*1 /\ forall w, w ∈ r.*1 -> w ∈ file_words file.
Proof.
  intros Hsort Hload Hnd Hq Hr. apply load_Loaded in Hload as HL.
  destruct (query_emb_known _ _ _ HL Hq) as [v Hv].
  rewrite (most_similar_ranking Hsort file E q v) in Hr by done.
  injection Hr as <-. set (cos := cosines E (normalize v)).
  assert (forall i, i ∈ py_slice topn (reverse (argsort cos)) ->
            exists w, file_words file !! i = Some w) as Hin.
  { intros i Hi. apply elem_of_py_slice, elem_of_reverse, (elem_of_argsort Hsort) in Hi.
    apply lookup_lt_is_Some_2.
    by rewrite file_words_length, <- (cosines_length file E (normalize v)). }
  rewrite <- list_fmap_compose. split.
  - apply NoDup_fmap_2_strong.
    + intros i j Hi Hj. cbn.
      destruct (Hin i Hi) as [wi Hwi], (Hin j Hj) as [wj Hwj].
      rewrite Hwi, Hwj. cbn. intros ->. by eapply NoDup_lookup.
    + apply py_slice_NoDup. rewrite reverse_Permutation, (sorts_perm Hsort).
      apply NoDup_seq.
  - intros w Hw. apply list_elem_of_fmap in Hw as (i & -> & Hi).
    destruct (Hin i Hi) as [wi Hwi]. cbn. rewrite Hwi. cbn.
    by eapply list_elem_of_lookup_2.
Qed.

Lemma most_similar_words_distinct_witness :
  NoDup [("cat"%string, F32.one); ("dog"%string, S754_finite false 16674602 (-24))].*1 /\
  forall w,
    w ∈ [("cat"%string, F32.one); ("dog"%string, S754_finite false 16674602 (-24))].*1 ->
    w ∈ file_words pets.
Proof.
  apply (most_similar_words_distinct (np := numpy_reference) pets pets_index (Word "cat") 2).
  - exact ReferenceFacts.argsort_sorts.
  - vm_compute. reflexivity.
  - apply NoDup_by_decide. vm_compute. reflexivity.
  - split; [discriminate|]. intros w Hw. apply list_elem_of_singleton in Hw as ->.
    vm_compute. eauto.
  - vm_compute. reflexivity.
Defined.

(** X10: on an index loaded from a file that names one word on two lines,
    a query of known words that asks for all N rows or more raises
    KeyError: the row of the earlier line has no entry in [inv_index]. *)
Theorem most_similar_repeated_word {np : NumPy} file E q (topn : Z) i j w :
  sorts argsort ->
  load file = Ok E ->
  file_words file !! i = Some w -> file_words file !! j = Some w -> i < j ->
  in_vocabulary E q -> (Z.of_nat (length file) <= topn)%Z ->
  most_similar E q topn = Raise KeyError.
Proof.
  intros Hsort Hload Hi Hj Hij Hq Hk. apply load_Loaded in Hload as HL.
  destruct (query_emb_known _ _ _ HL Hq) as [v Hv].
  unfold most_similar. rewrite Hv. cbn. set (cos := cosines E (normalize v)).
  assert (length cos = length file) as Hlen by apply (cosines_length _ _ _ HL).
  assert (py_slice topn (reverse (argsort cos)) = reverse (argsort cos)) as ->.
  { rewrite py_slice_nonneg by lia. apply take_ge.
    rewrite length_reverse, (Permutation_length (sorts_perm Hsort cos)), length_seq. lia. }
  assert (inv_index E !! i = None) as Hnone.
  { destruct (inv_index E !! i) as [w'|] eqn:Hw'; [|done].
    apply (loaded_inv _ _ HL), (loaded_index _ _ HL) in Hw' as [Hw' Hlast].
    destruct (Hlast j Hij). congruence. }
  apply (mapM_fails _ _ i).
  - apply elem_of_reverse, (elem_of_argsort Hsort). rewrite Hlen.
    apply lookup_lt_Some in Hi. by rewrite file_words_length in Hi.
  - unfold word_of. by rewrite Hnone.
  - intros a e Ha. apply elem_of_reverse, (elem_of_argsort Hsort) in Ha.
    unfold word_of. destruct (inv_index E !! a); cbn; [|by intros [= <-]].
    unfold getitem. destruct (lookup_lt_is_Some_2 _ _ Ha) as [c ->]. discriminate.
Qed.

Lemma most_similar_repeated_word_witness :
  most_similar (np := numpy_reference) repeated_index (Word "b") 3 = Raise KeyError.
Proof.
  apply (most_similar_repeated_word (np := numpy_reference) repeated repeated_index
           (Word "b") 3 0 2 "a"%string).
  - exact ReferenceFacts.argsort_sorts.
  - vm_compute. reflexivity.
  - reflexivity.
  - reflexivity.
  - lia.
  - split; [discriminate|]. intros w Hw. apply list_elem_of_singleton in Hw as ->.
    vm_compute. eauto.
  - vm_compute. discriminate.
Defined.

(** X11: a list of one word is answered like the word itself, provided no
    component of its vector is the negative zero (which [0 + x] turns into
    the positive one). *)
Theorem most_similar_one_word_list {np : NumPy} E w v (topn : Z) :
  get_emb E w = Ok (Some v) ->
  Forall (fun x => x <> S754_zero true) v ->
  most_similar E (Words [w]) topn = most_similar E (Word w) topn.
Proof.
  intros Hv Hnz. unfold most_similar. cbn. rewrite Hv. cbn.
  by rewrite fmap_add_zero.
Qed.

Lemma most_similar_one_word_list_witness :
  most_similar (np := numpy_reference) pets_index (Words ["dog"]%string) 3
    = most_similar (np := numpy_reference) pets_index (Word "dog") 3.
Proof.
  apply (most_similar_one_word_list (np := numpy_reference) pets_index "dog"%string
           [S754_finite false 15099494 (-24); S754_finite false 13421773 (-27)]).
  - vm_compute. reflexivity.
  - repeat constructor; discriminate.
Defined.

(** ** The cell that fills [embedding_matrix] *)

Section MatrixFacts.
Variables (max_nb_words dim : nat) (E : EmbeddingIndex).

Lemma get_emb_Ok_None w : get_emb E w = Ok None -> embeddings_index E !! w = None.
Proof.
  unfold get_emb. destruct (embeddings_index E !! w) as [i|]; [|done].
  unfold getitem. by destruct (glove_embeddings E !! i).
Qed.

Lemma get_emb_Ok_Some w v : get_emb E w = Ok (Some v) -> is_Some (embeddings_index E !! w).
Proof. unfold get_emb. destruct (embeddings_index E !! w); [eauto | discriminate]. Qed.

Lemma broadcast_length v row : broadcast dim v = Some row -> length row = dim.
Proof.
  unfold broadcast. case_decide as Hv.
  - intros [= <-]. by rewrite length_fmap.
  - destruct v as [|x [|]]; intros [= <-]. by rewrite length_replicate.
Qed.

Lemma assign_row_Ok m i v m' :
  assign_row dim m i v = Ok m' ->
  exists row, i < length m /\ broadcast dim v = Some row /\ m' = <[i := row]> m.
Proof.
  unfold assign_row. case_decide; [|discriminate].
  destruct (broadcast dim v) as [row|]; [|discriminate]. intros [= <-]. eauto.
Qed.

(** The loop from any state: the number of rows stays, the counter grows by
    the items it stores, and each row is what it was, when no stored item
    has its index, or the vector of a stored item with its index. *)
Lemma fill_loop_spec items m0 n0 m n :
  fill_loop max_nb_words dim E items (m0, n0) = Ok (m, n) ->
  length m = length m0 /\
  n = n0 + length (filter (fun item => item.2 < max_nb_words /\
                             is_Some (embeddings_index E !! item.1)) items) /\
  forall j,
    (m !! j = m0 !! j /\
     forall w, (w, j) ∈ items -> j < max_nb_words -> get_emb E w = Ok None) \/
    (exists w v row, (w, j) ∈ items /\ j < max_nb_words /\
       get_emb E w = Ok (Some v) /\ broadcast dim v = Some row /\ m !! j = Some row).
Proof.
  revert m0 n0. induction items as [|[w0 i0] items IH]; intros m0 n0 H;
    cbn [fill_loop] in H.
  - injection H as <- <-. split_and!; [done | cbn; lia |]. intros j. left. split; [done|].
    intros w Hw. by apply elem_of_nil in Hw.
  - revert H. case_decide as Hmax.
    + intros H. destruct (IH _ _ H) as (Hlen & Hn & Hrows).
      rewrite filter_cons_False by (cbn; lia). split_and!; [done..|].
      intros j. destruct (Hrows j) as [[Hj Hnone]|(w & v & row & Hin & ?)].
      * left. split; [done|]. intros w Hw Hlt.
        apply elem_of_cons in Hw as [[= -> ->]|Hw]; [lia | by apply Hnone].
      * right. exists w, v, row. split; [by right | done].
    + intros H. apply bind_Ok in H as (e & He & H). destruct e as [v|].
      * apply bind_Ok in H as (m1 & Hm1 & H). cbn in Hm1.
        apply assign_row_Ok in Hm1 as (row & Hi0 & Hrow & ->).
        destruct (IH _ _ H) as (Hlen & Hn & Hrows). cbn in Hlen, Hn.
        rewrite length_insert in Hlen.
        rewrite filter_cons_True
          by (cbn; split; [lia | by eapply get_emb_Ok_Some]).
        split_and!; [done | cbn; lia |].
        intros j. destruct (Hrows j) as [[Hj Hnone]|(w & v' & row' & Hin & ?)].
        -- destruct (decide (j = i0)) as [->|Hne].
           ++ right. exists w0, v, row. split_and!; [left | lia | done..|].
              by rewrite Hj, list_lookup_insert_eq.
           ++ left. rewrite Hj, list_lookup_insert_ne by done. split; [done|].
              intros w Hw Hlt. apply elem_of_cons in Hw as [[= -> ->]|Hw]; [done|].
              by apply Hnone.
        -- right. exists w, v', row'. split; [by right | done].
      * destruct (IH _ _ H) as (Hlen & Hn & Hrows).
        rewrite filter_cons_False
          by (cbn; rewrite (get_emb_Ok_None _ He); intros [_ []]; done).
        split_and!; [done..|].
        intros j. destruct (Hrows j) as [[Hj Hnone]|(w & v & row & Hin & ?)].
        -- left. split; [done|]. intros w Hw Hlt.
           apply elem_of_cons in Hw as [[= -> ->]|Hw]; [done | by apply Hnone].
        -- right. exists w, v, row. split; [by right | done].
Qed.

(** When every lookup answers and every vector fits a row, the loop goes
    through exactly when no stored item points past the matrix, and its only
    exception is IndexError. *)
Lemma fill_loop_outcome items st :
  (forall w, get_emb E w = Ok None \/
             exists v row, get_emb E w = Ok (Some v) /\ broadcast dim v = Some row) ->
  ((forall w i, (w, i) ∈ items -> i < max_nb_words ->
      is_Some (embeddings_index E !! w) -> i < length st.1) ->
   exists st', fill_loop max_nb_words dim E items st = Ok st') /\
  ((exists w i, (w, i) ∈ items /\ i < max_nb_words /\
      is_Some (embeddings_index E !! w) /\ length st.1 <= i) ->
   fill_loop max_nb_words dim E items st = Raise IndexError).
Proof.
  intros HE. revert st. induction items as [|[w0 i0] items IH]; intros st.
  { split; [cbn; eauto|]. intros (w & i & Hin & _). by apply elem_of_nil in Hin. }
  cbn. case_decide as Hmax.
  - destruct (IH st) as [IHok IHbad]. split.
    + intros Hgood. apply IHok. intros w i Hin. apply Hgood. by right.
    + intros (w & i & Hin & Hlt & Hk & Hge). apply IHbad.
      apply elem_of_cons in Hin as [[= -> ->]|Hin]; [lia|]. eauto 8.
  - destruct (HE w0) as [Hnone|(v & row & Hv & Hrow)].
    + rewrite Hnone. cbn. destruct (IH st) as [IHok IHbad]. split.
      * intros Hgood. apply IHok. intros w i Hin. apply Hgood. by right.
      * intros (w & i & Hin & Hlt & Hk & Hge). apply IHbad.
        apply elem_of_cons in Hin as [[= -> ->]|Hin]; [|eauto 8].
        rewrite (get_emb_Ok_None _ Hnone) in Hk. by destruct Hk.
    + rewrite Hv. cbn. unfold assign_row. rewrite Hrow.
      case_decide as Hi0; cbn.
      * destruct (IH (<[i0:=row]> st.1, S st.2)) as [IHok IHbad]. cbn in *.
        rewrite length_insert in IHok, IHbad. split.
        -- intros Hgood. apply IHok. intros w i Hin. apply Hgood. by right.
        -- intros (w & i & Hin & Hlt & Hk & Hge). apply IHbad.
           apply elem_of_cons in Hin as [[= -> ->]|Hin]; [lia | eauto 8].
      * split; [|done]. intros Hgood. destruct Hi0.
        apply (Hgood w0); [left | lia | by eapply get_emb_Ok_Some].
Qed.

Lemma items_index_inj (items : list (string * nat)) w w' j :
  NoDup items.*2 -> (w, j) ∈ items -> (w', j) ∈ items -> w = w'.
Proof.
  intros Hnd Hw Hw'. apply list_elem_of_lookup in Hw as [k Hk], Hw' as [k' Hk'].
  assert (items.*2 !! k = Some j) as H1 by (by rewrite list_lookup_fmap, Hk).
  assert (items.*2 !! k' = Some j) as H2 by (by rewrite list_lookup_fmap, Hk').
  pose proof (NoDup_lookup _ _ _ _ Hnd H1 H2) as ->. congruence.
Qed.

End MatrixFacts.

(** X12: when the cell succeeds, [embedding_matrix] has
    [min(max_nb_words, len(word_index))] rows of [dim] numbers each, and
    [nb_words_in_matrix] counts the items whose index is below
    [max_nb_words] and whose word the index knows. *)
Theorem fill_embedding_matrix_shape max_nb_words dim E word_index m n :
  fill_embedding_matrix max_nb_words dim E word_index = Ok (m, n) ->
  length m = min max_nb_words (length word_index) /\
  Forall (fun row => length row = dim) m /\
  n = length (filter (fun item => item.2 < max_nb_words /\
                        is_Some (embeddings_index E !! item.1)) word_index).
Proof.
  intros H. apply fill_loop_spec in H as (Hlen & Hn & Hrows).
  rewrite length_replicate in Hlen. split_and!; [done | | done].
  apply Forall_lookup. intros j row Hj.
  destruct (Hrows j) as [[Hj0 _]|(w & v & row' & _ & _ & _ & Hb & Hj')].
  - rewrite Hj in Hj0. symmetry in Hj0. apply lookup_replicate in Hj0 as [-> _].
    apply length_replicate.
  - replace row with row' by congruence. by eapply broadcast_length.
Qed.

Lemma fill_embedding_matrix_shape_witness :
  length [replicate 2 (S754_zero false); to_float64 <$> [F32.one; F32.zero]]
    = min 5 (length [("the"%string, 2); ("cat"%string, 1)]) /\
  Forall (fun row => length row = 2)
    [replicate 2 (S754_zero false); to_float64 <$> [F32.one; F32.zero]] /\
  1 = length (filter (fun item => item.2 < 5 /\
                        is_Some (embeddings_index pets_index !! item.1))
                [("the"%string, 2); ("cat"%string, 1)]).
Proof.
  apply (fill_embedding_matrix_shape 5 2 pets_index).
  vm_compute. reflexivity.
Defined.

(** X13: a row of the matrix the cell returns is either all zeros, and then
    no item with that index below [max_nb_words] has a word the index knows,
    or it is the vector of such an item ("words not found in embedding index
    will be all-zeros"). *)
Theorem fill_embedding_matrix_rows max_nb_words dim E word_index m n j row :
  fill_embedding_matrix max_nb_words dim E word_index = Ok (m, n) ->
  m !! j = Some row ->
  (row = replicate dim (S754_zero false) /\
   forall w, (w, j) ∈ word_index -> j < max_nb_words -> get_emb E w = Ok None) \/
  (exists w v, (w, j) ∈ word_index /\ j < max_nb_words /\
     get_emb E w = Ok (Some v) /\ broadcast dim v = Some row).
Proof.
  intros H Hj. apply fill_loop_spec in H as (_ & _ & Hrows).
  destruct (Hrows j) as [[Hj0 Hnone]|(w & v & row' & Hin & Hlt & Hv & Hb & Hj')].
  - left. split; [|done]. rewrite Hj in Hj0. symmetry in Hj0.
    by apply lookup_replicate in Hj0 as [-> _].
  - right. exists w, v. replace row with row' by congruence. done.
Qed.

Lemma fill_embedding_matrix_rows_witness :
  (replicate 2 (S754_zero false) = replicate 2 (S754_zero false) /\
   forall w, (w, 0) ∈ [("the"%string, 2); ("cat"%string, 1)] -> 0 < 5 ->
     get_emb pets_index w = Ok None) \/
  (exists w v, (w, 0) ∈ [("the"%string, 2); ("cat"%string, 1)] /\ 0 < 5 /\
     get_emb pets_index w = Ok (Some v) /\
     broadcast 2 v = Some (replicate 2 (S754_zero false))).
Proof.
  apply (fill_embedding_matrix_rows 5 2 pets_index [("the"%string, 2); ("cat"%string, 1)]
           [replicate 2 (S754_zero false); to_float64 <$> [F32.one; F32.zero]] 1).
  - vm_compute. reflexivity.
  - reflexivity.
Defined.

(** X14: when the indices of [word_index] are pairwise distinct, as the
    tokenizer's are, the row of every stored word holds its vector: after a
    successful run, row [i] is the vector of the word with index [i]. *)
Theorem fill_embedding_matrix_lookup max_nb_words dim E word_index m n w i v :
  fill_embedding_matrix max_nb_words dim E word_index = Ok (m, n) ->
  NoDup word_index.*2 ->
  (w, i) ∈ word_index -> i < max_nb_words -> get_emb E w = Ok (Some v) ->
  exists row, broadcast dim v = Some row /\ m !! i = Some row.
Proof.
  intros H Hnd Hin Hlt Hv. apply fill_loop_spec in H as (_ & _ & Hrows).
  destruct (Hrows i) as [[_ Hnone]|(w' & v' & row & Hin' & _ & Hv' & Hb & Hi)].
  - rewrite (Hnone w Hin Hlt) in Hv. discriminate.
  - pose proof (items_index_inj _ _ _ _ Hnd Hin Hin') as <-.
    exists row. split; [congruence | done].
Qed.

Lemma fill_embedding_matrix_lookup_witness :
  exists row,
    broadcast 2 [F32.one; F32.zero] = Some row /\
    [replicate 2 (S754_zero false); to_float64 <$> [F32.one; F32.zero]] !! 1 = Some row.
Proof.
  apply (fill_embedding_matrix_lookup 5 2 pets_index [("the"%string, 2); ("cat"%string, 1)]
           _ 1 "cat"%string 1).
  - vm_compute. reflexivity.
  - apply NoDup_cons. split; [|apply NoDup_singleton].
    intros H. apply list_elem_of_singleton in H. discriminate.
  - apply elem_of_cons. right. apply elem_of_cons. by left.
  - lia.
  - vm_compute. reflexivity.
Defined.

Lemma loaded_vectors_fit {np : NumPy} dim file E :
  Loaded file E ->
  (forall line, line ∈ file -> length (Text.split line) = S dim) ->
  forall w, get_emb E w = Ok None \/
            exists v row, get_emb E w = Ok (Some v) /\ broadcast dim v = Some row.
Proof.
  intros HL Hdim w. destruct (embeddings_index E !! w) as [i|] eqn:Hw.
  - right. destruct (get_emb_present _ _ _ _ HL Hw) as (v & Hi & Hv & _).
    exists v, (to_float64 <$> v). split; [done|].
    unfold broadcast. rewrite decide_True; [done|].
    apply (loaded_index _ _ HL) in Hw as [Hw _].
    unfold file_words in Hw. rewrite list_lookup_fmap in Hw.
    destruct (file !! i) as [line|] eqn:Hline; [|done].
    destruct (Forall2_lookup_l _ _ _ _ _ (loaded_rows _ _ HL) Hline)
      as (row & Hrow & word & Hp).
    apply parses_length in Hp. rewrite (Hdim line) in Hp
      by (by eapply list_elem_of_lookup_2).
    replace v with row by congruence. lia.
  - left. by apply get_emb_absent.
Qed.

(** X15: on an index loaded from a file with [dim] numbers on each line, the
    cell succeeds exactly when no item with a word of the file has an index
    [i] with [len(word_index) <= i < max_nb_words]; otherwise it raises
    IndexError, and it raises nothing else.  With the tokenizer's indices
    [1 .. len(word_index)] and fewer than [max_nb_words] words, the word
    with the last index is such an item. *)
Theorem fill_embedding_matrix_outcome {np : NumPy} max_nb_words dim file E word_index :
  load file = Ok E ->
  (forall line, line ∈ file -> length (Text.split line) = S dim) ->
  ((exists r, fill_embedding_matrix max_nb_words dim E word_index = Ok r) <->
   (forall w i, (w, i) ∈ word_index -> w ∈ file_words file ->
      i < max_nb_words -> i < length word_index)) /\
  (fill_embedding_matrix max_nb_words dim E word_index = Raise IndexError <->
   (exists w i, (w, i) ∈ word_index /\ w ∈ file_words file /\
      length word_index <= i < max_nb_words)).
Proof.
  intros Hload Hdim. apply load_Loaded in Hload as HL.
  pose proof (loaded_vectors_fit dim file E HL Hdim) as HE.
  unfold fill_embedding_matrix.
  set (st := (replicate (min max_nb_words (length word_index))
                (replicate dim (S754_zero false)), 0)).
  destruct (fill_loop_outcome max_nb_words dim E word_index st HE) as [Hok Hbad].
  cbn in Hok, Hbad. rewrite length_replicate in Hok, Hbad.
  assert ((exists w i, (w, i) ∈ word_index /\ w ∈ file_words file /\
             length word_index <= i < max_nb_words) ->
          fill_loop max_nb_words dim E word_index st = Raise IndexError) as Hbad'.
  { intros (w & i & Hin & Hw & Hlo & Hhi). apply Hbad. exists w, i.
    split_and!; [done.. | by apply (Loaded_known _ _ _ HL) | lia]. }
  assert ((forall w i, (w, i) ∈ word_index -> w ∈ file_words file ->
             i < max_nb_words -> i < length word_index) ->
          exists st', fill_loop max_nb_words dim E word_index st = Ok st') as Hok'.
  { intros Hgood. apply Hok. intros w i Hin Hlt Hk.
    apply (Loaded_known _ _ _ HL) in Hk. pose proof (Hgood w i Hin Hk Hlt). lia. }
  split; split.
  - intros [r Hr] w i Hin Hw Hlt.
    destruct (decide (i < length word_index)) as [|Hge]; [done|].
    rewrite Hbad' in Hr; [discriminate|]. exists w, i. split_and!; [done..|lia|done].
  - done.
  - intros Hraise.
    destruct (decide (Forall (fun item : string * nat =>
                item.1 ∈ file_words file -> item.2 < max_nb_words ->
                item.2 < length word_index) word_index)) as [Hall|Hnall].
    + destruct Hok' as [st' Hst']; [|congruence].
      intros w i Hin. apply (proj1 (Forall_forall _ _) Hall (w, i) Hin).
    + apply not_Forall_Exists in Hnall; [|apply _].
      apply Exists_exists in Hnall as ([w i] & Hin & Hn). cbn in Hn.
      exists w, i. split; [done|].
      destruct (decide (w ∈ file_words file)) as [Hw|Hw]; [|by destruct Hn].
      destruct (decide (i < max_nb_words)) as [Hlt|Hlt]; [|by destruct Hn].
      destruct (decide (i < length word_index)) as [Hi|Hi]; [by destruct Hn|].
      split; [done | lia].
  - done.
Qed.

Lemma fill_embedding_matrix_outcome_witness :
  ((exists r, fill_embedding_matrix 5 2 pets_index
                [("cat"%string, 1); ("zebra"%string, 2); ("dog"%string, 3)] = Ok r) <->
   (forall w i, (w, i) ∈ [("cat"%string, 1); ("zebra"%string, 2); ("dog"%string, 3)] ->
      w ∈ file_words pets -> i < 5 ->
      i < length [("cat"%string, 1); ("zebra"%string, 2); ("dog"%string, 3)])) /\
  (fill_embedding_matrix 5 2 pets_index
     [("cat"%string, 1); ("zebra"%string, 2); ("dog"%string, 3)] = Raise IndexError <->
   (exists w i, (w, i) ∈ [("cat"%string, 1); ("zebra"%string, 2); ("dog"%string, 3)] /\
      w ∈ file_words pets /\
      length [("cat"%string, 1); ("zebra"%string, 2); ("dog"%string, 3)] <= i < 5)).
Proof.
  apply (fill_embedding_matrix_outcome (np := numpy_reference) 5 2 pets pets_index).
  - vm_compute. reflexivity.
  - intros line Hin. repeat (apply elem_of_cons in Hin as [->|Hin]; [reflexivity|]).
    by apply elem_of_nil in Hin.
Defined.

(** X16: the cell as the notebook runs it.  On an index loaded from a file
    with 100 numbers on each line, and with a [word_index] of at least 20000
    items, it never fails: the matrix has 20000 rows of 100 numbers. *)
Theorem embedding_matrix_succeeds {np : NumPy} file E word_index :
  load file = Ok E ->
  (forall line, line ∈ file -> length (Text.split line) = S EMBEDDING_DIM) ->
  MAX_NB_WORDS <= length word_index ->
  exists m n,
    embedding_matrix E word_index = Ok (m, n) /\
    length m = MAX_NB_WORDS /\ Forall (fun row => length row = EMBEDDING_DIM) m /\
    n <= length word_index.
Proof.
  intros Hload Hdim Hlen. apply load_Loaded in Hload as HL.
  pose proof (loaded_vectors_fit EMBEDDING_DIM file E HL Hdim) as HE.
  unfold embedding_matrix, fill_embedding_matrix.
  set (st := (replicate (min MAX_NB_WORDS (length word_index))
                (replicate EMBEDDING_DIM (S754_zero false)), 0)).
  destruct (fill_loop_outcome MAX_NB_WORDS EMBEDDING_DIM E word_index st HE) as [Hok _].
  destruct Hok as [[m n] Hst].
  { intros w i _ Hi _. cbn. rewrite length_replicate. lia. }
  exists m, n. split; [done|].
  destruct (fill_loop_spec _ _ _ _ _ _ _ _ Hst) as (Hm & Hn & Hrows).
  rewrite length_replicate in Hm. split_and!.
  - lia.
  - apply Forall_lookup. intros j row Hj.
    destruct (Hrows j) as [[Hj0 _]|(w & v & row' & _ & _ & _ & Hb & Hj')].
    + rewrite Hj in Hj0. symmetry in Hj0. apply lookup_replicate in Hj0 as [-> _].
      apply length_replicate.
    + replace row with row' by congruence. by eapply broadcast_length.
  - rewrite Hn. cbn. apply length_filter.
Qed.

Lemma embedding_matrix_succeeds_witness :
  exists m n,
    embedding_matrix hundred_index vocabulary = Ok (m, n) /\
    length m = MAX_NB_WORDS /\ Forall (fun row => length row = EMBEDDING_DIM) m /\
    n <= length vocabulary.
Proof.
  apply (embedding_matrix_succeeds (np := numpy_reference) hundred hundred_index).
  - vm_compute. reflexivity.
  - intros line Hin. apply list_elem_of_singleton in Hin as ->. vm_compute. reflexivity.
  - unfold vocabulary. rewrite length_fmap, length_seq. reflexivity.
Defined.

(** ** The labels of the t-SNE plot and the decoding of a sequence *)

Section LabelFacts.
Context {np : NumPy}.

Lemma word_of_Raise E i e : word_of E i = Raise e -> e = KeyError.
Proof. unfold word_of. destruct (inv_index E !! i); [discriminate | by intros [= <-]]. Qed.

Lemma index_to_word_snoc items (x : string * nat) :
  index_to_word (items ++ [x]) = <[x.2 := x.1]> (index_to_word items).
Proof. unfold index_to_word. by rewrite foldl_snoc. Qed.

Lemma index_to_word_Some items i w :
  index_to_word items !! i = Some w -> (w, i) ∈ items.
Proof.
  induction items as [|[w0 i0] items IH] using rev_ind.
  - unfold index_to_word. cbn. by rewrite lookup_empty.
  - rewrite index_to_word_snoc. cbn. intros H.
    apply lookup_insert_Some in H as [[-> ->]|[_ H]]; apply elem_of_app.
    + right. by left.
    + left. by apply IH.
Qed.

Lemma index_to_word_None items i :
  i ∉ items.*2 -> index_to_word items !! i = None.
Proof.
  intros Hi. destruct (index_to_word items !! i) as [w|] eqn:Hw; [|done].
  destruct Hi. apply index_to_word_Some in Hw.
  apply list_elem_of_fmap. by exists (w, i).
Qed.

Lemma index_to_word_lookup items i w :
  NoDup items.*2 -> (w, i) ∈ items -> index_to_word items !! i = Some w.
Proof.
  intros Hnd Hin. destruct (index_to_word items !! i) as [w'|] eqn:Hw.
  - apply index_to_word_Some in Hw. f_equal. by eapply items_index_inj.
  - assert (i ∈ items.*2) as Hi by (apply list_elem_of_fmap; by exists (w, i)).
    clear Hnd Hin. induction items as [|[w0 i0] items IH] using rev_ind.
    + by apply elem_of_nil in Hi.
    + rewrite index_to_word_snoc in Hw. cbn in Hw.
      apply lookup_insert_None in Hw as [Hw Hne].
      rewrite fmap_app in Hi. apply elem_of_app in Hi as [Hi|Hi]; [by apply IH|].
      apply list_elem_of_singleton in Hi. cbn in Hi. congruence.
Qed.

End LabelFacts.

(** X17: the labels of the plot.  On an index loaded from distinct words,
    looking up [inv_index[idx]] for [idx in range(n)] gives the first [n]
    words of the file when the file has at least [n] lines, and raises
    KeyError when it has fewer. *)
Theorem plot_labels_first_words {np : NumPy} file E n :
  load file = Ok E -> NoDup (file_words file) ->
  plot_labels E n =
    if decide (n <= length file) then Ok (take n (file_words file))
    else Raise KeyError.
Proof.
  intros Hload Hnd. apply load_Loaded in Hload as HL. unfold plot_labels.
  case_decide as Hn.
  - rewrite (mapM_fmap _ (fun i => default EmptyString (file_words file !! i))).
    + f_equal. apply list_eq. intros i. rewrite list_lookup_fmap.
      destruct (decide (i < n)) as [Hi|Hi].
      * rewrite lookup_seq_lt, lookup_take_lt by done. cbn.
        destruct (lookup_lt_is_Some_2 (file_words file) i) as [w ->]; [|done].
        rewrite file_words_length. lia.
      * rewrite lookup_seq_ge, lookup_take_ge by lia. done.
    + intros i Hi. apply elem_of_seq in Hi. apply (word_of_loaded file); [done..|lia].
  - apply (mapM_fails _ _ (length file)).
    + apply elem_of_seq. lia.
    + unfold word_of. destruct (inv_index E !! length file) as [w|] eqn:Hw; [|done].
      apply (loaded_inv _ _ HL) in Hw. apply (Loaded_index_lt _ _ _ _ HL) in Hw. lia.
    + intros i e _. apply word_of_Raise.
Qed.

Lemma plot_labels_first_words_witness :
  plot_labels pets_index 2 =
    if decide (2 <= length pets) then Ok (take 2 (file_words pets)) else Raise KeyError.
Proof.
  apply (plot_labels_first_words (np := numpy_reference) pets pets_index 2).
  - vm_compute. reflexivity.
  - apply NoDup_by_decide. vm_compute. reflexivity.
Defined.

(** X18: decoding a sequence of indices.  When the indices of [word_index]
    are pairwise distinct, a sequence of indices of its words decodes to
    those words joined by single spaces. *)
Theorem decode_words word_index sequence ws :
  NoDup word_index.*2 ->
  Forall2 (fun i w => (w, i) ∈ word_index) sequence ws ->
  decode word_index sequence = Ok (String.concat " " ws).
Proof.
  intros Hnd Hws. unfold decode.
  assert (mapM (fun i => match index_to_word word_index !! i with
                         | Some w => Ok w
                         | None => Raise KeyError
                         end) sequence = Ok ws) as ->; [|done].
  induction Hws as [|i w sequence ws Hin Hws IH]; [done|]. cbn.
  rewrite (index_to_word_lookup _ _ _ Hnd Hin). cbn. by rewrite IH.
Qed.

Lemma decode_words_witness :
  decode [("the"%string, 1); ("cat"%string, 2)] [2; 1; 2] = Ok "cat the cat"%string.
Proof.
  apply (decode_words [("the"%string, 1); ("cat"%string, 2)] [2; 1; 2]
           ["cat"; "the"; "cat"]%string).
  - apply NoDup_cons. split; [|apply NoDup_singleton].
    intros H. apply list_elem_of_singleton in H. discriminate.
  - repeat constructor.
Defined.

(** X19: an index that no word of [word_index] has, such as the padding
    index 0 under the tokenizer's indices from 1, makes the decoding raise
    KeyError wherever it stands in the sequence. *)
Theorem decode_unknown_index word_index sequence i :
  i ∈ sequence -> i ∉ word_index.*2 ->
  decode word_index sequence = Raise KeyError.
Proof.
  intros Hin Hi. unfold decode.
  rewrite (mapM_fails _ _ i KeyError); [done | done | |].
  - by rewrite index_to_word_None.
  - intros a e _. destruct (index_to_word word_index !! a); [discriminate|].
    by intros [= <-].
Qed.

Lemma decode_unknown_index_witness :
  decode [("the"%string, 1); ("cat"%string, 2)] [2; 0; 1] = Raise KeyError.
Proof.
  apply (decode_unknown_index [("the"%string, 1); ("cat"%string, 2)] [2; 0; 1] 0).
  - apply elem_of_cons. right. apply elem_of_cons. by left.
  - cbn. intros H. repeat (apply elem_of_cons in H as [H|H]; [discriminate|]).
    by apply elem_of_nil in H.
Defined.

(** ** The cosine of two words *)

Lemma get_normed_emb_absent E w :
  embeddings_index E !! w = None -> get_normed_emb E w = Ok None.
Proof. unfold get_normed_emb. by intros ->. Qed.

(** X20: on a loaded index, [np.dot(get_normed_emb(a), get_normed_emb(b))]
    raises TypeError as soon as one of the two words starts no line of the
    file, and is the dot product of the two normed rows otherwise. *)
Theorem similarity_outcome {np : NumPy} file E a b :
  load file = Ok E ->
  (a ∉ file_words file \/ b ∉ file_words file -> similarity E a b = Raise TypeError) /\
  (forall u v, get_emb E a = Ok (Some u) -> get_emb E b = Ok (Some v) ->
     similarity E a b = Ok (dot (normalize u) (normalize v))).
Proof.
  intros Hload. apply load_Loaded in Hload as HL. unfold similarity. split.
  - intros Hno.
    destruct (embeddings_index E !! a) as [i|] eqn:Ha;
      destruct (embeddings_index E !! b) as [j|] eqn:Hb.
    + destruct Hno as [Hno|Hno]; destruct Hno; apply (Loaded_known _ _ _ HL); eauto.
    + destruct (get_emb_present _ _ _ _ HL Ha) as (u & _ & _ & ->).
      by rewrite (get_normed_emb_absent _ _ Hb).
    + rewrite (get_normed_emb_absent _ _ Ha).
      by destruct (get_emb_present _ _ _ _ HL Hb) as (v & _ & _ & ->).
    + by rewrite (get_normed_emb_absent _ _ Ha), (get_normed_emb_absent _ _ Hb).
  - intros u v Hu Hv.
    destruct (get_emb_Some _ _ _ _ HL Hu) as (i & Hi & _).
    destruct (get_emb_Some _ _ _ _ HL Hv) as (j & Hj & _).
    destruct (get_emb_present _ _ _ _ HL Hi) as (u' & _ & Hu' & ->).
    destruct (get_emb_present _ _ _ _ HL Hj) as (v' & _ & Hv' & ->).
    replace u' with u by congruence. replace v' with v by congruence. cbn.
    destruct (get_emb_dim _ _ HL) as (d & _ & Hd).
    rewrite decide_True; [done|]. unfold normalize.
    by rewrite !length_fmap, (Hd _ _ Hu), (Hd _ _ Hv).
Qed.

Lemma similarity_outcome_witness :
  ("zebra"%string ∉ file_words pets \/ "cat"%string ∉ file_words pets ->
   similarity (np := numpy_reference) pets_index "zebra"%string "cat"%string
     = Raise TypeError) /\
  (forall u v, get_emb pets_index "zebra"%string = Ok (Some u) ->
     get_emb pets_index "cat"%string = Ok (Some v) ->
     similarity (np := numpy_reference) pets_index "zebra"%string "cat"%string
       = Ok (dot (NumPy := numpy_reference) (normalize (np := numpy_reference) u)
               (normalize (np := numpy_reference) v))).
Proof.
  apply (similarity_outcome (np := numpy_reference) pets pets_index).
  vm_compute. reflexivity.
Defined.

(** ** Which exceptions the cells raise *)

Section ExceptionFacts.
Context {np : NumPy}.

Lemma loop_body_IndexError st line e :
  loop_body st line = Raise e ->
  (e = IndexError /\ Text.decodes line = true /\ Text.split line = []) \/ e = ValueError.
Proof.
  destruct st as [[index vectors] n]. unfold loop_body.
  destruct (Text.decodes line); [|intros [= <-]; by right].
  destruct (Text.split line) as [|word values]; [intros [= <-]; by left|].
  intros H. apply bind_Raise in H as [H|(? & _ & [=])].
  right. by eapply asarray_Raise.
Qed.

Lemma load_loop_IndexError lines st e :
  load_loop lines st = Raise e ->
  (e = IndexError /\
   exists line, line ∈ lines /\ Text.decodes line = true /\ Text.split line = []) \/
  e = ValueError.
Proof.
  revert st. induction lines as [|line lines IH]; intros st; cbn; [discriminate|].
  intros H. apply bind_Raise in H as [H|(st' & _ & H)].
  - apply loop_body_IndexError in H as [[-> Hs]| ->]; [left | by right].
    split; [done|]. exists line. split; [left | done].
  - apply IH in H as [[-> (l & Hl & Hs)]| ->]; [left | by right].
    split; [done|]. exists l. split; [by right | done].
Qed.

Lemma load_IndexError file e :
  load file = Raise e ->
  (e = IndexError /\
   exists line, line ∈ file /\ Text.decodes line = true /\ Text.split line = []) \/
  e = ValueError.
Proof.
  unfold load. intros H. apply bind_Raise in H as [H|(st & _ & H)].
  - by apply load_loop_IndexError in H.
  - right. apply bind_Raise in H as [H|(? & _ & [=])]. by eapply vstack_Raise.
Qed.

End ExceptionFacts.

(** X21: what the loading cells can raise, from [open] on.  They raise
    OSError, and then the file is not there; or IndexError, and then some
    line of the file is text without any token; or ValueError; and nothing
    else. *)
Theorem load_exceptions {np : NumPy} files e :
  load_file files = Raise e ->
  (e = OSError /\ files !! glove_file = None) \/
  (e = IndexError /\
   exists bytes line, files !! glove_file = Some bytes /\ line ∈ Text.lines bytes /\
     Text.decodes line = true /\ Text.split line = []) \/
  e = ValueError.
Proof.
  unfold load_file, open. destruct (files !! glove_file) as [bytes|]; cbn.
  - intros H. apply load_IndexError in H as [[-> (line & Hin & Hdec & Hs)]| ->]; right.
    + left. split; [done|]. by exists bytes, line.
    + by right.
  - intros [= <-]. by left.
Qed.

Lemma load_exceptions_witness :
  (IndexError = OSError /\ blank_line_files !! glove_file = None) \/
  (IndexError = IndexError /\
   exists bytes line, blank_line_files !! glove_file = Some bytes /\
     line ∈ Text.lines bytes /\ Text.decodes line = true /\ Text.split line = []) \/
  IndexError = ValueError.
Proof.
  apply (load_exceptions (np := numpy_reference) blank_line_files IndexError).
  vm_compute. reflexivity.
Defined.

(** X22: what [most_similar] can raise on a loaded index.  It raises
    TypeError, and then the query is not a query of known words (a word is
    unknown, or the list is empty), or KeyError, and then the query is of
    known words and the file names some word on two lines; it raises nothing
    else. *)
Theorem most_similar_exceptions {np : NumPy} file E q (topn : Z) e :
  sorts argsort ->
  load file = Ok E ->
  most_similar E q topn = Raise e ->
  (e = TypeError /\ ~ in_vocabulary E q) \/
  (e = KeyError /\ in_vocabulary E q /\ ~ NoDup (file_words file)).
Proof.
  intros Hsort Hload Hr. apply load_Loaded in Hload as HL.
  destruct (decide (Forall (fun w => is_Some (embeddings_index E !! w)) (query_words q)))
    as [Hall|Hnall].
  - destruct (decide (query_words q = [])) as [Hnil|Hne].
    + left. split; [|by intros [Hne _]].
      destruct q as [w|ws]; cbn in Hnil; [discriminate|]. subst ws.
      unfold most_similar in Hr. cbn in Hr.
      destruct (py_slice topn _); [discriminate | by injection Hr as <-].
    + right. assert (in_vocabulary E q) as Hq.
      { split; [done|]. intros w Hw. by apply (proj1 (Forall_forall _ _) Hall). }
      destruct (query_emb_known _ _ _ HL Hq) as [v Hv].
      split_and!; [|done|].
      * unfold most_similar in Hr. rewrite Hv in Hr. cbn in Hr.
        apply mapM_Raise in Hr as (i & Hi & Hr).
        apply elem_of_py_slice, elem_of_reverse, (elem_of_argsort Hsort) in Hi.
        unfold word_of in Hr. destruct (inv_index E !! i); cbn in Hr.
        -- unfold getitem in Hr. destruct (lookup_lt_is_Some_2 _ _ Hi) as [c Hc].
           rewrite Hc in Hr. discriminate.
        -- by injection Hr as <-.
      * intros Hnd. rewrite (most_similar_ranking Hsort file E q v) in Hr by done.
        discriminate.
  - left. apply not_Forall_Exists in Hnall; [|apply _].
    apply Exists_exists in Hnall as (w & Hw & Hno). cbn in Hno.
    assert (embeddings_index E !! w = None) as Hnone.
    { destruct (embeddings_index E !! w); [|done]. destruct Hno. eauto. }
    split.
    + unfold most_similar in Hr. destruct q as [w'|ws]; cbn in *.
      * apply list_elem_of_singleton in Hw as ->.
        rewrite (get_emb_absent _ _ Hnone) in Hr. cbn in Hr. by injection Hr as <-.
      * rewrite (sum_loop_unknown file) in Hr; [by injection Hr as <- | done | eauto | auto].
    + intros [_ Hq]. destruct (Hq w Hw) as [i Hi]. congruence.
Qed.

Lemma most_similar_exceptions_witness :
  (KeyError = TypeError /\ ~ in_vocabulary repeated_index (Word "b")) \/
  (KeyError = KeyError /\ in_vocabulary repeated_index (Word "b") /\
   ~ NoDup (file_words repeated)).
Proof.
  apply (most_similar_exceptions (np := numpy_reference) repeated repeated_index
           (Word "b") 3 KeyError).
  - exact ReferenceFacts.argsort_sorts.
  - vm_compute. reflexivity.
  - vm_compute. reflexivity.
Defined.
